(** * MIMO vocabulary crawlers: a shallow embedding

    The repository holds two scripts that walk the MIMO vocabulary service:
    [scripts/hornbostelSachs_data.py] (the classification crawl) and
    [scripts/translation_data.py] (the translation crawl).  Both keep three
    pieces of module-level mutable state ([counter], [failed_urls],
    [results]) and talk to the service through [requests.get].

    The embedding threads that state explicitly through a small
    state-and-exception monad.  The remote service is a record of pure
    functions from the requested URL to the status code and the decoded
    body; every [requests.get] is appended to a log kept in the state, so
    that statements about "which requests are issued" can be written down.
    Python's [str] is modelled by [string], one character per code point
    (code points below 256); [len] is [String.length] and the default
    ordering of strings is [String.compare].  Printing and the politeness
    sleep have no model. *)

From Stdlib Require Import ZArith List String Ascii Bool Lia Arith.
From Stdlib Require Import Permutation Sorted.
Import ListNotations.

Set Implicit Arguments.

(** ** Python prelude *)

Module Py.

(** The exceptions the two scripts can raise on the paths modelled here. *)
Inductive exn : Type :=
| TypeError
| KeyError
| IndexError
| ValueError
| UnboundLocalError
| XPathEvalError
| RecursionError.

(** A run either returns, raises, or exhausts the recursion fuel.  The fuel
    bounds the depth of the recursion: [OutOfFuel] says that the run went
    deeper than the bound it was given.  CPython bounds the depth as well and
    ends such a run with [RecursionError]; how many calls fit under its limit
    depends on the frames of the libraries, so the model keeps the bound a
    parameter: a run that ends in [OutOfFuel] under every bound is a run that
    CPython ends with [RecursionError]. *)
Inductive outcome (A : Type) : Type :=
| Ok (a : A)
| Raise (e : exn)
| OutOfFuel.
Arguments Raise {A} e.
Arguments OutOfFuel {A}.

(** Computations over a store [S]; the store survives an exception. *)
Definition M (S A : Type) : Type := S -> outcome A * S.

Definition ret {S A} (a : A) : M S A := fun s => (Ok a, s).

Definition bind {S A B} (m : M S A) (k : A -> M S B) : M S B :=
  fun s =>
    match m s with
    | (Ok a, s') => k a s'
    | (Raise e, s') => (Raise e, s')
    | (OutOfFuel, s') => (OutOfFuel, s')
    end.

Definition raise {S A} (e : exn) : M S A := fun s => (Raise e, s).
Definition diverge {S A} : M S A := fun s => (OutOfFuel, s).

(** A recursive function run by CPython under a recursion limit that leaves
    room for [limit] nested calls: a run that goes deeper is ended with
    [RecursionError], which neither script catches. *)
Definition under_recursion_limit {S A} (limit : nat) (run : nat -> M S A)
  : M S A :=
  fun s =>
    match run limit s with
    | (OutOfFuel, s') => (Raise RecursionError, s')
    | r => r
    end.
Definition get {S} : M S S := fun s => (Ok s, s).
Definition modify {S} (f : S -> S) : M S unit := fun s => (Ok tt, f s).

(** The outcome of a call that does not touch the store. *)
Definition of_outcome {S A} (o : outcome A) : M S A := fun s => (o, s).

(** What the body of a [for] loop tells the loop: go on, or [break]. *)
Inductive flow : Type := Next | Break.

(** [for x in l: body]; a [break] leaves this loop only. *)
Fixpoint for_each {S A} (body : A -> M S flow) (l : list A) : M S unit :=
  match l with
  | [] => ret tt
  | x :: l' =>
      fun s =>
        match body x s with
        | (Ok Next, s') => for_each body l' s'
        | (Ok Break, s') => (Ok tt, s')
        | (Raise e, s') => (Raise e, s')
        | (OutOfFuel, s') => (OutOfFuel, s')
        end
  end.

(** [sorted(l, key=key)]: a stable sort that compares keys with [<] only.
    [insert x l] places [x] in front of the first element whose key is not
    below its own, so equal keys keep their source order. *)
Section Sorted.
Context {A K : Type} (ltb : K -> K -> bool) (key : A -> K).

Fixpoint insert (x : A) (l : list A) : list A :=
  match l with
  | [] => [x]
  | y :: l' => if ltb (key y) (key x) then y :: insert x l' else x :: y :: l'
  end.

Definition sorted (l : list A) : list A := fold_right insert [] l.
End Sorted.

(** [l[-1]], which raises [IndexError] on the empty list. *)
Fixpoint item_last {A} (l : list A) : option A :=
  match l with
  | [] => None
  | [x] => Some x
  | _ :: l' => item_last l'
  end.

(** [l.index(x)]: the first position of [x]; [None] stands for the
    [ValueError] of an absent element. *)
Fixpoint index (x : string) (l : list string) : option nat :=
  match l with
  | [] => None
  | y :: l' => if String.eqb y x then Some 0%nat
               else option_map S (index x l')
  end.

(** A [dict] keeps its items in insertion order; keys are unique. *)
Definition dict (K V : Type) : Type := list (K * V).

Section Dict.
Context {K V : Type} (eqb : K -> K -> bool).

Fixpoint dict_get (d : dict K V) (k : K) : option V :=
  match d with
  | [] => None
  | (k', v) :: d' => if eqb k' k then Some v else dict_get d' k
  end.

(** [d[k] = v]: overwrite in place, or append a new item. *)
Fixpoint dict_set (d : dict K V) (k : K) (v : V) : dict K V :=
  match d with
  | [] => [(k, v)]
  | (k', v') :: d' =>
      if eqb k' k then (k', v) :: d' else (k', v') :: dict_set d' k v
  end.

(** [dict(items)]. *)
Definition dict_of_items (items : list (K * V)) : dict K V :=
  fold_left (fun d kv => dict_set d (fst kv) (snd kv)) items [].
End Dict.

Definition option_eqb {A} (eqb : A -> A -> bool) (x y : option A) : bool :=
  match x, y with
  | Some a, Some b => eqb a b
  | None, None => true
  | _, _ => false
  end.

(** [s.split(sep)] for a one-character separator. *)
Fixpoint split (sep : ascii) (s : string) : list string :=
  match s with
  | EmptyString => [EmptyString]
  | String c s' =>
      if Ascii.eqb c sep then EmptyString :: split sep s'
      else match split sep s' with
           | [] => [String c EmptyString]
           | w :: ws => String c w :: ws
           end
  end.

(** Evaluate a fallible key on every element, as [sorted] does before it
    compares anything. *)
Fixpoint decorate {A K} (key : A -> option K) (l : list A)
  : option (list (K * A)) :=
  match l with
  | [] => Some []
  | x :: l' =>
      match key x, decorate key l' with
      | Some k, Some r => Some ((k, x) :: r)
      | _, _ => None
      end
  end.

End Py.

Import Py.

Declare Scope py_scope.
Delimit Scope py_scope with py.
Notation "x <- c ;; k" := (bind c (fun x => k))
  (at level 61, c at next level, right associativity) : py_scope.
Notation "c ;; k" := (bind c (fun _ => k))
  (at level 61, right associativity) : py_scope.
Open Scope py_scope.
Open Scope string_scope.
Open Scope Z_scope.

(** ** The classification crawl: [scripts/hornbostelSachs_data.py] *)

Module HornbostelSachs.

Definition BASE_URL : string :=
  "https://vocabulary.mimo-international.com/rest/v1/HornbostelAndSachs".

(** A concept descriptor, as found in [topconcepts] and in [narrower]. *)
Record Concept : Type := mkConcept {
  uri : string;
  label : string;
  notation : string;
  hasChildren : bool
}.

(** A value of [hierarchy_data['broaderTransitive']]; the key [narrower]
    may be absent. *)
Record Broader : Type := mkBroader {
  narrower : option (list Concept)
}.

(** The decoded hierarchy document; the key [broaderTransitive] may be
    absent. *)
Record Hierarchy : Type := mkHierarchy {
  broaderTransitive : option (dict string Broader)
}.

Record Mapping : Type := mkMapping { prefLabel : string }.

(** The remote service.  [details_page] gives, for a concept URI, the
    status code and the texts the XPath query selects from the page;
    [mappings_doc] gives the status code and [data['mappings']], which is
    [null] or a list; [hierarchy_doc] and [topconcepts_doc] give the status
    code and the decoded JSON body. *)
Record Server : Type := mkServer {
  details_page : string -> Z * list string;
  mappings_doc : string -> Z * option (list Mapping);
  hierarchy_doc : string -> Z * Hierarchy;
  topconcepts_doc : Z * list Concept
}.

(** One value of the output mapping. *)
Record Entry : Type := mkEntry {
  Label : string;
  Instruments : list string;
  Description : string;
  MIMOPage : string
}.

(** The store.  [count] is [counter['count']]; [failed_urls] and [results]
    are the module-level lists of lines 159 and 160; [main_results] is the
    dict that [main] binds to its own local name [results] (line 129);
    [http_log] records every URL handed to [requests.get]. *)
Record State : Type := mkState {
  count : Z;
  failed_urls : list string;
  results : list Entry;
  main_results : dict string Entry;
  http_log : list string
}.

(** The store at [if __name__ == "__main__":]. *)
Definition initial : State := mkState 0 [] [] [] [].

Definition requests_get (url : string) : M State unit :=
  modify (fun st => mkState (count st) (failed_urls st) (results st)
                            (main_results st) (http_log st ++ [url])).

Definition failed_urls_append (url : string) : M State unit :=
  modify (fun st => mkState (count st) (failed_urls st ++ [url]) (results st)
                            (main_results st) (http_log st)).

Definition counter_increment : M State unit :=
  modify (fun st => mkState (count st + 1) (failed_urls st) (results st)
                            (main_results st) (http_log st)).

Definition main_results_set (k : string) (v : Entry) : M State unit :=
  modify (fun st => mkState (count st) (failed_urls st) (results st)
                            (dict_set String.eqb (main_results st) k v)
                            (http_log st)).

(** [results[child_notation] = {...}] inside [process_hierarchy] (line 94).
    The name [results] there is the module-level one, which line 160 binds
    to a list; a list takes no [str] subscript, so the statement raises
    [TypeError] and stores nothing. *)
Definition results_setitem (k : string) (v : Entry) : M State unit :=
  raise TypeError.

Definition get_page_number_from_uri (uri : string) : string :=
  List.last (split "/"%char uri) "".

Definition mappings_url (page : string) : string :=
  BASE_URL ++ "/mappings?uri=http%3A%2F%2Fwww.mimo-db.eu%2FHornbostelAndSachs%2F"
           ++ page ++ "&lang=en&clang=en".

Definition hierarchy_url (page : string) : string :=
  BASE_URL ++ "/hierarchy?uri=http%3A%2F%2Fwww.mimo-db.eu%2FHornbostelAndSachs%2F"
           ++ page ++ "&lang=en".

Definition topconcepts_url : string := BASE_URL ++ "/topConcepts?lang=en".

Section Crawl.
Variable srv : Server.
Variable MAX_COUNT : Z.

(** [li_texts] is bound only under [status_code == 200]; reading it
    unbound raises [UnboundLocalError]. *)
Definition get_description_from_uri (uri : string) : M State string :=
  requests_get uri ;;
  let html_response := details_page srv uri in
  let li_texts :=
    if fst html_response =? 200 then Some (snd html_response) else None in
  match li_texts with
  | None => raise UnboundLocalError
  | Some li_texts =>
      match item_last (sorted Nat.ltb String.length li_texts) with
      | Some d => ret d
      | None => raise IndexError
      end
  end.

Definition get_instrument_names_for_page (page : string)
  : M State (list string) :=
  let url := mappings_url page in
  requests_get url ;;
  let response := mappings_doc srv url in
  if negb (fst response =? 200) then
    failed_urls_append url ;;
    ret []
  else
    match snd response with
    | Some l => ret (map prefLabel l)
    | None => ret []
    end.

Definition fetch_hierarchy (page : string) : M State (option Hierarchy) :=
  let url := hierarchy_url page in
  requests_get url ;;
  let response := hierarchy_doc srv url in
  if negb (fst response =? 200) then
    failed_urls_append url ;;
    ret None
  else ret (Some (snd response)).

(** [MAX_COUNT != -1 and counter['count'] >= MAX_COUNT] *)
Definition cap_reached (st : State) : bool :=
  negb (MAX_COUNT =? -1) && (MAX_COUNT <=? count st).

(** Lines 101-104; [Break] is the [break] of line 104. *)
Definition count_visit : M State flow :=
  if negb (MAX_COUNT =? -1) then
    counter_increment ;;
    st <- get ;;
    if MAX_COUNT <=? count st then ret Break else ret Next
  else ret Next.

(** The body of the loop over [narrower] (lines 84-108); [expand] is the
    recursive call of line 108. *)
Definition visit_child
           (expand : option Hierarchy -> nat -> option string -> M State unit)
           (depth : nat) (child_entry : Concept) : M State flow :=
  let child_uri := uri child_entry in
  let child_label := label child_entry in
  let child_notation := notation child_entry in
  child_description <- get_description_from_uri child_uri ;;
  let child_page := get_page_number_from_uri child_uri in
  child_instrument_names <- get_instrument_names_for_page child_page ;;
  results_setitem child_notation
    (mkEntry child_label child_instrument_names child_description child_page) ;;
  f <- count_visit ;;
  match f with
  | Break => ret Break
  | Next =>
      if hasChildren child_entry then
        child_hierarchy_data <- fetch_hierarchy child_page ;;
        expand child_hierarchy_data (S depth) (Some child_uri) ;;
        ret Next
      else ret Next
  end.

(** [fuel] bounds the depth of the recursion, which the script itself
    bounds by the remote tree only (and the interpreter by its recursion
    limit). *)
Fixpoint process_hierarchy (fuel : nat) (hierarchy_data : option Hierarchy)
         (depth : nat) (uri : option string) : M State unit :=
  match fuel with
  | O => diverge
  | S fuel' =>
      st <- get ;;
      if cap_reached st then ret tt else
      match hierarchy_data with
      | None => raise TypeError
      | Some h =>
          match broaderTransitive h with
          | None => ret tt
          | Some bt =>
              let uris :=
                match uri with None => map fst bt | Some u => [u] end in
              for_each (fun current_uri =>
                match dict_get String.eqb bt current_uri with
                | None => raise KeyError
                | Some b =>
                    match narrower b with
                    | None => ret Next
                    | Some children =>
                        for_each (visit_child (process_hierarchy fuel') depth)
                                 children ;;
                        ret Next
                    end
                end) uris
          end
      end
  end.

(** [sorted(results.items(), key=lambda x: sorted(list(results.keys())).index(x[0]))]
    turned back into a dict. *)
Definition sort_results (results : dict string Entry)
  : outcome (dict string Entry) :=
  let rank (x : string * Entry) :=
    index (fst x) (sorted String.ltb (fun k => k) (map fst results)) in
  match decorate rank results with
  | None => Raise ValueError
  | Some keyed =>
      Ok (dict_of_items String.eqb (map snd (sorted Nat.ltb fst keyed)))
  end.

(** The body of the loop over [data['topconcepts']] (lines 132-151). *)
Definition main_item (fuel : nat) (item : Concept) : M State flow :=
  if hasChildren item then
    let page := get_page_number_from_uri (HornbostelSachs.uri item) in
    instrument_names <- get_instrument_names_for_page page ;;
    description <- get_description_from_uri (HornbostelSachs.uri item) ;;
    let notation := notation item in
    main_results_set notation
      (mkEntry (label item) instrument_names description page) ;;
    f <- count_visit ;;
    match f with
    | Break => ret Break
    | Next =>
        hierarchy_data <- fetch_hierarchy page ;;
        process_hierarchy fuel hierarchy_data 0%nat None ;;
        ret Next
    end
  else ret Next.

(** [main] returns what it hands to [save_json]. *)
Definition main (fuel : nat) : M State (dict string Entry) :=
  requests_get topconcepts_url ;;
  let data := snd (topconcepts_doc srv) in
  for_each (main_item fuel) data ;;
  st <- get ;;
  match sort_results (main_results st) with
  | Ok sorted_results => ret sorted_results
  | Raise e => raise e
  | OutOfFuel => diverge
  end.

End Crawl.

End HornbostelSachs.

(** ** The translation crawl: [scripts/translation_data.py] *)

Module Translation.

Definition BASE_URL : string :=
  "https://vocabulary.mimo-international.com/rest/v1/InstrumentsKeywords".

(** A descriptor of the hierarchy document: an item of [narrower], or a
    value of [broaderTransitive], which may carry [narrower] itself.  The
    keys [prefLabel], [label] and [narrower] may be absent. *)
Record Child : Type := mkChild {
  uri : string;
  prefLabel : option string;
  label : option string;
  hasChildren : bool
}.

Record Broader : Type := mkBroader {
  self : Child;
  narrower : option (list Child)
}.

Record Hierarchy : Type := mkHierarchy {
  broaderTransitive : option (dict string Broader)
}.

(** An element of the parsed RDF/XML document, as [lxml] presents it: the
    tag in Clark notation, the attributes, the text and the child
    elements. *)
#[warnings="-register-all"] Inductive element : Type :=
| Element (tag : string) (attrib : dict string string)
          (text : option string) (children : list element).

Definition tag (e : element) : string :=
  match e with Element t _ _ _ => t end.
Definition attrib (e : element) : dict string string :=
  match e with Element _ a _ _ => a end.
Definition text (e : element) : option string :=
  match e with Element _ _ t _ => t end.
Definition children (e : element) : list element :=
  match e with Element _ _ _ c => c end.

(** Every element of the document, in document order. *)
Fixpoint iter (e : element) : list element :=
  match e with
  | Element _ _ _ c => e :: flat_map iter c
  end.

Definition SKOS : string := "http://www.w3.org/2004/02/skos/core#".
Definition RDF : string := "http://www.w3.org/1999/02/22-rdf-syntax-ns#".
Definition XML_LANG : string := "{http://www.w3.org/XML/1998/namespace}lang".

Definition clark (ns local : string) : string := "{" ++ ns ++ "}" ++ local.

(** [//skos:Concept[@rdf:about="about"]] *)
Definition xpath_concept (about : string) (tree : element) : list element :=
  filter (fun e =>
            String.eqb (tag e) (clark SKOS "Concept")
            && option_eqb String.eqb
                 (dict_get String.eqb (attrib e) (clark RDF "about"))
                 (Some about))
         (iter tree).

(** [./skos:prefLabel] *)
Definition xpath_prefLabel (e : element) : list element :=
  filter (fun c => String.eqb (tag c) (clark SKOS "prefLabel")) (children e).

(** The remote service: the status code and the parsed body of the [data]
    endpoint, the status code and the decoded body of the [hierarchy]
    endpoint.  With it comes the one answer of the XPath engine that the
    script leaves to its input: line 49 pastes the page into the text of the
    query, so a page that holds a double quote or a control character makes
    the query another one than intended.  [xpath_unintended] is what the
    engine does with the text of such a query on a document: it selects some
    elements, or refuses the query with an exception. *)
Record Server : Type := mkServer {
  data_doc : string -> Z * element;
  hierarchy_doc : string -> Z * Hierarchy;
  xpath_unintended : string -> element -> outcome (list element)
}.

(** The mapping built by [get_translations]: [label.get(...)] and
    [label.text] are both [None] when the attribute or the text is absent. *)
Definition translations : Type := dict (option string) (option string).

Record Entry : Type := mkEntry {
  Label : string;
  Translations : option translations;
  MIMOPage : string
}.

Record State : Type := mkState {
  count : Z;
  failed_urls : list string;
  results : list Entry;
  http_log : list string
}.

Definition initial : State := mkState 0 [] [] [].

Definition requests_get (url : string) : M State unit :=
  modify (fun st => mkState (count st) (failed_urls st) (results st)
                            (http_log st ++ [url])).

Definition failed_urls_append (url : string) : M State unit :=
  modify (fun st => mkState (count st) (failed_urls st ++ [url]) (results st)
                            (http_log st)).

Definition counter_increment : M State unit :=
  modify (fun st => mkState (count st + 1) (failed_urls st) (results st)
                            (http_log st)).

Definition results_append (e : Entry) : M State unit :=
  modify (fun st => mkState (count st) (failed_urls st) (results st ++ [e])
                            (http_log st)).

Definition get_page_number_from_uri (uri : string) : string :=
  List.last (split "/"%char uri) "".

Definition data_url (page : string) : string :=
  BASE_URL ++ "/data?uri=http%3A%2F%2Fwww.mimo-db.eu%2FInstrumentsKeywords%2F"
           ++ page ++ "&format=application/rdf%2Bxml".

Definition hierarchy_url (page : string) : string :=
  BASE_URL ++ "/hierarchy?uri=http%3A%2F%2Fwww.mimo-db.eu%2FInstrumentsKeywords%2F"
           ++ page ++ "&lang=en".

Definition concept_about (page : string) : string :=
  "http://www.mimo-db.eu/InstrumentsKeywords/" ++ page.

(** [child_entry['prefLabel']] when the key is there, [child_entry['label']]
    otherwise; [None] when both are missing. *)
Definition label_of (c : Child) : option string :=
  match prefLabel c with
  | Some l => Some l
  | None => label c
  end.

Definition entry_label (c : Child) : M State string :=
  match label_of c with
  | Some l => ret l
  | None => raise KeyError
  end.

(** [json.dumps] writes a string between double quotes and escapes the
    quote, the backslash and every character outside [' '..'~']
    ([ensure_ascii] is left at its default). *)
Definition quote : ascii := ascii_of_N 34.
Definition backslash : ascii := ascii_of_N 92.

(** A page that can stand inside the double-quoted literal of the query of
    line 49 and leave it the query intended: no double quote, no control
    character. *)
Fixpoint plain_page (page : string) : bool :=
  match page with
  | EmptyString => true
  | String c page' =>
      (31 <? N_of_ascii c)%N && negb (N_of_ascii c =? 34)%N && plain_page page'
  end.

(** The text of the query of line 49. *)
Definition concept_query (page : string) : string :=
  "//skos:Concept[@rdf:about=" ++ String quote (concept_about page)
    ++ String quote "]".

Definition hex_digit (n : N) : ascii :=
  match String.get (N.to_nat n) "0123456789abcdef" with
  | Some c => c
  | None => "0"%char
  end.

Definition escape_char (c : ascii) : string :=
  let n := N_of_ascii c in
  if (n =? 34)%N then String backslash (String quote "")
  else if (n =? 92)%N then String backslash (String backslash "")
  else if (n =? 8)%N then String backslash "b"
  else if (n =? 12)%N then String backslash "f"
  else if (n =? 10)%N then String backslash "n"
  else if (n =? 13)%N then String backslash "r"
  else if (n =? 9)%N then String backslash "t"
  else if ((n <? 32) || (126 <? n))%N then
    String backslash
      ("u00" ++ String (hex_digit (n / 16)) (String (hex_digit (n mod 16)) ""))
  else String c "".

Fixpoint escape (s : string) : string :=
  match s with
  | EmptyString => EmptyString
  | String c s' => escape_char c ++ escape s'
  end.

Definition dumps_str (s : string) : string :=
  String quote (escape s ++ String quote "").

Definition dumps_opt_str (v : option string) : string :=
  match v with
  | Some s => dumps_str s
  | None => "null"
  end.

(** A key of a JSON object is a string; a [None] key is written as the
    string [null]. *)
Definition dumps_key (k : option string) : string :=
  match k with
  | Some s => dumps_str s
  | None => dumps_str "null"
  end.

Definition is_none {A} (o : option A) : bool :=
  match o with None => true | Some _ => false end.

(** The order [sort_keys=True] sorts the items of a dict in.  The keys of a
    dict are distinct, so only keys get compared; comparing [None] with a
    [str] raises [TypeError], which happens as soon as a [None] key has a
    neighbour. *)
Definition key_ltb (a b : option string) : bool :=
  match a, b with
  | Some x, Some y => String.ltb x y
  | _, _ => false
  end.

Definition sort_keys (t : translations)
  : outcome (list (option string * option string)) :=
  if existsb (fun kv => is_none (fst kv)) t && (1 <? List.length t)%nat
  then Raise TypeError
  else Ok (sorted key_ltb fst t).

Fixpoint join (sep : string) (l : list string) : string :=
  match l with
  | [] => ""
  | [x] => x
  | x :: l' => x ++ sep ++ join sep l'
  end.

Definition dumps_translations (t : option translations) : outcome string :=
  match t with
  | None => Ok "null"
  | Some t =>
      match sort_keys t with
      | Ok items =>
          Ok ("{" ++ join ", " (map (fun kv => dumps_key (fst kv) ++ ": "
                                               ++ dumps_opt_str (snd kv)) items)
                  ++ "}")
      | Raise e => Raise e
      | OutOfFuel => OutOfFuel
      end
  end.

(** [json.dumps(entry, sort_keys=True)] *)
Definition json_dumps (entry : Entry) : outcome string :=
  match dumps_translations (Translations entry) with
  | Ok t =>
      Ok ("{" ++ dumps_str "Label" ++ ": " ++ dumps_str (Label entry) ++ ", "
              ++ dumps_str "MIMOPage" ++ ": " ++ dumps_str (MIMOPage entry) ++ ", "
              ++ dumps_str "Translations" ++ ": " ++ t ++ "}")
  | Raise e => Raise e
  | OutOfFuel => OutOfFuel
  end.

(** The loop of [remove_duplicates], with [seen] and [unique_data] as
    accumulators; [seen] is only ever tested for membership and added to. *)
Fixpoint remove_duplicates_loop (seen : list string) (unique_data : list Entry)
         (sorted_results : list Entry) : outcome (list Entry) :=
  match sorted_results with
  | [] => Ok unique_data
  | entry :: rest =>
      match json_dumps entry with
      | Ok serialized =>
          if negb (existsb (String.eqb serialized) seen)
          then remove_duplicates_loop (serialized :: seen)
                                      (unique_data ++ [entry]) rest
          else remove_duplicates_loop seen unique_data rest
      | Raise e => Raise e
      | OutOfFuel => OutOfFuel
      end
  end.

Definition remove_duplicates (sorted_results : list Entry)
  : outcome (list Entry) :=
  remove_duplicates_loop [] [] sorted_results.

Section Crawl.
Variable srv : Server.
Variable MAX_COUNT : Z.

(** The loop of lines 55-58 over the direct [prefLabel] children. *)
Definition collect_labels (labels : list element) : translations :=
  fold_left (fun translations label =>
               let lang := dict_get String.eqb (attrib label) XML_LANG in
               let value := text label in
               dict_set (option_eqb String.eqb) translations lang value)
            labels [].

(** [tree.xpath(f'//skos:Concept[@rdf:about="...{page}"]', ...)] of line 49.
    For a plain page this is the query intended, [xpath_concept]; for any
    other page the answer is the engine's. *)
Definition xpath_specific_concept (page : string) (tree : element)
  : M State (list element) :=
  if plain_page page then ret (xpath_concept (concept_about page) tree)
  else of_outcome (xpath_unintended srv (concept_query page) tree).

Definition get_translations (page : string) : M State (option translations) :=
  let url := data_url page in
  requests_get url ;;
  let response := data_doc srv url in
  if negb (fst response =? 200) then
    failed_urls_append url ;;
    ret None
  else
    let tree := snd response in
    specific_concept <- xpath_specific_concept page tree ;;
    match specific_concept with
    | [] => ret (Some [])
    | c :: _ => ret (Some (collect_labels (xpath_prefLabel c)))
    end.

Definition fetch_hierarchy (page : string) : M State (option Hierarchy) :=
  let url := hierarchy_url page in
  requests_get url ;;
  let response := hierarchy_doc srv url in
  if negb (fst response =? 200) then
    failed_urls_append url ;;
    ret None
  else ret (Some (snd response)).

Definition cap_reached (st : State) : bool :=
  negb (MAX_COUNT =? -1) && (MAX_COUNT <=? count st).

Definition count_visit : M State flow :=
  if negb (MAX_COUNT =? -1) then
    counter_increment ;;
    st <- get ;;
    if MAX_COUNT <=? count st then ret Break else ret Next
  else ret Next.

(** [results.append({'Label': ..., 'Translations': get_translations(page),
    'MIMOPage': page})] *)
Definition emit (child_label child_page : string) : M State unit :=
  t <- get_translations child_page ;;
  results_append (mkEntry child_label t child_page).

(** The body of the loop over [narrower] (lines 90-115); [expand] is the
    recursive call of line 115. *)
Definition visit_child
           (expand : option Hierarchy -> nat -> option string -> option string
                     -> M State unit)
           (depth : nat) (child_entry : Child) : M State flow :=
  let child_uri := uri child_entry in
  child_label <- entry_label child_entry ;;
  let child_page := get_page_number_from_uri child_uri in
  emit child_label child_page ;;
  f <- count_visit ;;
  match f with
  | Break => ret Break
  | Next =>
      if hasChildren child_entry then
        child_hierarchy_data <- fetch_hierarchy child_page ;;
        expand child_hierarchy_data (S depth) (Some child_uri) (Some child_page) ;;
        ret Next
      else ret Next
  end.

(** The [else] branch of lines 117-133: the entry has no [narrower] and is
    treated as a descriptor itself. *)
Definition visit_self
           (expand : option Hierarchy -> nat -> option string -> option string
                     -> M State unit)
           (depth : nat) (child_entry : Child) : M State flow :=
  child_label <- entry_label child_entry ;;
  let child_uri := uri child_entry in
  let child_page := get_page_number_from_uri child_uri in
  emit child_label child_page ;;
  if hasChildren child_entry then
    child_hierarchy_data <- fetch_hierarchy child_page ;;
    expand child_hierarchy_data (S depth) (Some child_uri) (Some child_page) ;;
    ret Next
  else ret Next.

(** As in the classification crawl, [fuel] bounds the depth of the
    recursion. *)
Fixpoint process_hierarchy (fuel : nat) (hierarchy_data : option Hierarchy)
         (depth : nat) (uri : option string) (page : option string)
  : M State unit :=
  match fuel with
  | O => diverge
  | S fuel' =>
      st <- get ;;
      if cap_reached st then ret tt else
      match hierarchy_data with
      | None => raise TypeError
      | Some h =>
          match broaderTransitive h with
          | None => ret tt
          | Some bt =>
              let uris :=
                match uri with None => map fst bt | Some u => [u] end in
              for_each (fun current_uri =>
                match dict_get String.eqb bt current_uri with
                | None => raise KeyError
                | Some b =>
                    match narrower b with
                    | Some children =>
                        for_each (visit_child (process_hierarchy fuel') depth)
                                 children ;;
                        ret Next
                    | None =>
                        visit_self (process_hierarchy fuel') depth (self b)
                    end
                end) uris
          end
      end
  end.

(** The body of the loop of [main] over the keys of [broaderTransitive]
    (lines 158-165).  The dict literal evaluates ['Label'] before it calls
    [get_translations]. *)
Definition main_item (fuel : nat) (hierarchy_data : option Hierarchy)
           (bt : dict string Broader) (i : string) : M State flow :=
  match dict_get String.eqb bt i with
  | None => raise KeyError
  | Some b =>
      let uri := Translation.uri (self b) in
      let page := get_page_number_from_uri uri in
      match dict_get String.eqb bt uri with
      | None => raise KeyError
      | Some b' =>
          match prefLabel (self b') with
          | None => raise KeyError
          | Some l =>
              emit l page ;;
              process_hierarchy fuel hierarchy_data 0%nat (Some uri) (Some page) ;;
              ret Next
          end
      end
  end.

(** [main] returns what it hands to [save_json]. *)
Definition main (fuel : nat) : M State (list Entry) :=
  let initial_page := "2208" in
  hierarchy_data <- fetch_hierarchy initial_page ;;
  match hierarchy_data with
  | None => raise TypeError
  | Some h =>
      match broaderTransitive h with
      | None => raise KeyError
      | Some bt =>
          for_each (main_item fuel hierarchy_data bt) (map fst bt) ;;
          st <- get ;;
          let sorted_results := sorted String.ltb Label (results st) in
          match remove_duplicates sorted_results with
          | Ok cleaned_results => ret cleaned_results
          | Raise e => raise e
          | OutOfFuel => diverge
          end
      end
  end.

End Crawl.

End Translation.

(** ** The ordering the specification asks for *)

Module Spec.

(** "Simply sort by notation code ascending": a plain stable sort of the
    items of the mapping, by key, in the default ordering of strings. *)
Definition sort_by_notation_ascending {V : Type} (results : dict string V)
  : dict string V :=
  sorted String.ltb fst results.





End Spec.

(** ** Small remote services used to run the scripts *)

Module Scenario.

(** A classification service with a single top-level concept; its details
    page answers with [details_status], its mappings with [mappings_status]
    and a [null] list. *)
Definition drums (has_children : bool) : HornbostelSachs.Concept :=
  HornbostelSachs.mkConcept "http://www.mimo-db.eu/HornbostelAndSachs/123"
                            "Drums" "211" has_children.

Definition classification (details_status mappings_status : Z)
           (has_children : bool) : HornbostelSachs.Server :=
  HornbostelSachs.mkServer
    (fun _ => (details_status, ["struck directly"; "drum"]))
    (fun _ => (mappings_status, None))
    (fun _ => (200, HornbostelSachs.mkHierarchy (Some [])))
    (200, [drums has_children]).

(** A translation service.  Page 2208 is the root, with the narrower
    concepts 2 (which has children) and 3 (which has none); page 2 has the
    narrower concepts 4 and 5.  [status2] is the status of the hierarchy
    request for page 2. *)
Definition kw (n : string) : string :=
  "http://www.mimo-db.eu/InstrumentsKeywords/" ++ n.

Definition child (n l : string) (has_children : bool) : Translation.Child :=
  Translation.mkChild (kw n) (Some l) None has_children.

Definition root_doc : Translation.Hierarchy :=
  Translation.mkHierarchy
    (Some [(kw "2208",
            Translation.mkBroader (child "2208" "Instruments" true)
              (Some [child "2" "Aerophones" true;
                     child "3" "Bells" false]))]).

Definition page2_doc : Translation.Hierarchy :=
  Translation.mkHierarchy
    (Some [(kw "2",
            Translation.mkBroader (child "2" "Aerophones" true)
              (Some [child "4" "Flutes" false;
                     child "5" "Horns" false]))]).

Definition no_concept : Translation.element :=
  Translation.Element (Translation.clark Translation.RDF "RDF") [] None [].

(** A page that closes the literal of the query of line 49 and goes on:
    [x" or "1"="1]. *)
Definition injected_page : string :=
  "x" ++ String Translation.quote (" or " ++ String Translation.quote
    ("1" ++ String Translation.quote ("=" ++ String Translation.quote "1"))).

(** The XPath engine of the examples.  The query that [injected_page] makes
    has the predicate [@rdf:about="...x" or "1"="1"], which holds of every
    element: the engine answers it with all the [skos:Concept] elements of
    the document, in document order.  The examples make no other unintended
    query; the engine refuses them. *)
Definition engine (query : string) (tree : Translation.element)
  : outcome (list Translation.element) :=
  if String.eqb query (Translation.concept_query injected_page)
  then Ok (filter (fun e => String.eqb (Translation.tag e)
                              (Translation.clark Translation.SKOS "Concept"))
                  (Translation.iter tree))
  else Raise XPathEvalError.

Definition translation (status2 : Z) : Translation.Server :=
  Translation.mkServer
    (fun _ => (200, no_concept))
    (fun u =>
       if String.eqb u (Translation.hierarchy_url "2208") then (200, root_doc)
       else if String.eqb u (Translation.hierarchy_url "2") then (status2, page2_doc)
       else (404, Translation.mkHierarchy None))
    engine.

(** The document of scenario B: the concept of page 12 with two direct
    labels, and under its [skos:broader] the concept of page 2208 with a
    label of its own. *)
Definition label_element (lang value : string) : Translation.element :=
  Translation.Element (Translation.clark Translation.SKOS "prefLabel")
                      [(Translation.XML_LANG, lang)] (Some value) [].

Definition concept_element (n : string) (content : list Translation.element)
  : Translation.element :=
  Translation.Element (Translation.clark Translation.SKOS "Concept")
                      [(Translation.clark Translation.RDF "about", kw n)]
                      None content.

Definition floete : string := "Fl" ++ String (ascii_of_N 246) "te".

Definition flute_doc : Translation.element :=
  Translation.Element (Translation.clark Translation.RDF "RDF") [] None
    [concept_element "12"
       [label_element "en" "Flute";
        Translation.Element (Translation.clark Translation.SKOS "broader") [] None
          [concept_element "2208" [label_element "en" "Instruments";
                                   label_element "fr" "Instruments de musique"]];
        label_element "de" floete]].

Definition flute_service : Translation.Server :=
  Translation.mkServer (fun _ => (200, flute_doc))
                       (fun _ => (404, Translation.mkHierarchy None))
                       engine.

End Scenario.

(** * Properties *)

(** ** Running the monad *)

Ltac run :=
  unfold bind, ret, raise, diverge, get, modify in *; simpl in *.

Lemma bind_ok {S A B} (m : M S A) (k : A -> M S B) s a s' :
  m s = (Ok a, s') -> bind m k s = k a s'.
Proof. intros H. unfold bind. now rewrite H. Qed.

Lemma bind_raise {S A B} (m : M S A) (k : A -> M S B) s e s' :
  m s = (Raise e, s') -> bind m k s = (Raise e, s').
Proof. intros H. unfold bind. now rewrite H. Qed.

(** ** Failed hierarchy fetches (C1) *)

Section HierarchyFailure.
Variable srvH : HornbostelSachs.Server.
Variable srvT : Translation.Server.

(** With a status other than 200 [fetch_hierarchy] records the URL and
    returns [None], in both scripts. *)
Lemma fetch_hierarchy_failure_H page st :
  fst (HornbostelSachs.hierarchy_doc srvH (HornbostelSachs.hierarchy_url page)) <> 200 ->
  exists st',
    HornbostelSachs.fetch_hierarchy srvH page st = (Ok None, st') /\
    HornbostelSachs.failed_urls st' =
      (HornbostelSachs.failed_urls st ++ [HornbostelSachs.hierarchy_url page])%list.
Proof.
  intros H. unfold HornbostelSachs.fetch_hierarchy.
  apply Z.eqb_neq in H. rewrite H. simpl.
  eexists. split; reflexivity.
Qed.

Lemma fetch_hierarchy_failure_T page st :
  fst (Translation.hierarchy_doc srvT (Translation.hierarchy_url page)) <> 200 ->
  exists st',
    Translation.fetch_hierarchy srvT page st = (Ok None, st') /\
    Translation.failed_urls st' =
      (Translation.failed_urls st ++ [Translation.hierarchy_url page])%list.
Proof.
  intros H. unfold Translation.fetch_hierarchy.
  apply Z.eqb_neq in H. rewrite H. simpl.
  eexists. split; reflexivity.
Qed.

End HierarchyFailure.

(** C1: [fetch_hierarchy] does return [None] after recording the URL, but
    [process_hierarchy] applied to [None] does not end the branch normally:
    with the cap switched off ([MAX_COUNT = -1]) the membership test
    ['broaderTransitive' not in hierarchy_data] raises [TypeError], in the
    classification script and in the translation script alike, whatever the
    store and the arguments. *)
Theorem process_hierarchy_None_raises :
  forall (srvH : HornbostelSachs.Server) (srvT : Translation.Server)
         (fuel depth : nat) (uri page : option string)
         (stH : HornbostelSachs.State) (stT : Translation.State),
    HornbostelSachs.process_hierarchy srvH (-1) (S fuel) None depth uri stH
      = (Raise TypeError, stH)
    /\ Translation.process_hierarchy srvT (-1) (S fuel) None depth uri page stT
      = (Raise TypeError, stT).
Proof.
  intros. split; reflexivity.
Qed.

(** ** A response without [broaderTransitive] (C9) *)

(** C9: for a hierarchy response that is a mapping without the key
    [broaderTransitive], [process_hierarchy] returns normally and leaves the
    whole store as it was: nothing is emitted, no URL is recorded as failed,
    no request is issued.  This holds in both scripts, for every cap and
    every positive fuel. *)
Theorem process_hierarchy_missing_key :
  forall (srvH : HornbostelSachs.Server) (srvT : Translation.Server)
         (MAX_COUNT : Z) (fuel depth : nat) (uri page : option string)
         (hH : HornbostelSachs.Hierarchy) (hT : Translation.Hierarchy)
         (stH : HornbostelSachs.State) (stT : Translation.State),
    HornbostelSachs.broaderTransitive hH = None ->
    Translation.broaderTransitive hT = None ->
    HornbostelSachs.process_hierarchy srvH MAX_COUNT (S fuel) (Some hH) depth uri stH
      = (Ok tt, stH)
    /\ Translation.process_hierarchy srvT MAX_COUNT (S fuel) (Some hT) depth uri page stT
      = (Ok tt, stT).
Proof.
  intros srvH srvT MAX_COUNT fuel depth uri page hH hT stH stT HH HT.
  split.
  - simpl. unfold bind, get.
    destruct (HornbostelSachs.cap_reached MAX_COUNT stH); [reflexivity|].
    rewrite HH. reflexivity.
  - simpl. unfold bind, get.
    destruct (Translation.cap_reached MAX_COUNT stT); [reflexivity|].
    rewrite HT. reflexivity.
Qed.

Lemma process_hierarchy_missing_key_witness :
  HornbostelSachs.process_hierarchy
    (HornbostelSachs.mkServer (fun _ => (200, [])) (fun _ => (200, None))
       (fun _ => (200, HornbostelSachs.mkHierarchy None)) (200, []))
    (-1) 1 (Some (HornbostelSachs.mkHierarchy None)) 0 None HornbostelSachs.initial
    = (Ok tt, HornbostelSachs.initial)
  /\ Translation.process_hierarchy
    (Translation.mkServer (fun _ => (200, Translation.Element "" [] None []))
       (fun _ => (200, Translation.mkHierarchy None)) Scenario.engine)
    (-1) 1 (Some (Translation.mkHierarchy None)) 0 None None Translation.initial
    = (Ok tt, Translation.initial).
Proof.
  apply (process_hierarchy_missing_key
           (HornbostelSachs.mkServer (fun _ => (200, [])) (fun _ => (200, None))
              (fun _ => (200, HornbostelSachs.mkHierarchy None)) (200, []))
           (Translation.mkServer (fun _ => (200, Translation.Element "" [] None []))
              (fun _ => (200, Translation.mkHierarchy None)) Scenario.engine)
           (-1) 0 0 None None
           (HornbostelSachs.mkHierarchy None) (Translation.mkHierarchy None)
           HornbostelSachs.initial Translation.initial);
    reflexivity.
Defined.

(** When the hierarchy request of a child answers 404, the translation
    crawl records the URL and then stops with [TypeError]: the entries of
    the root and of the child are all it has gathered, and nothing is
    saved. *)
Example translation_crawl_stops_on_failed_hierarchy :
  let r := Translation.main (Scenario.translation 404) (-1) 5 Translation.initial in
  fst r = Raise TypeError
  /\ Translation.failed_urls (snd r) = [Translation.hierarchy_url "2"]
  /\ map Translation.Label (Translation.results (snd r)) = ["Instruments"; "Aerophones"].
Proof. vm_compute. repeat split. Qed.

(** ** A failed description page (C2) *)

(** C2: when the description page of a concept answers with a status other
    than 200, [get_description_from_uri] reads the unbound [li_texts] and
    raises [UnboundLocalError]; the request is issued, but the failed-URL
    list is left as it was, so the failure is neither recorded nor
    survived. *)
Theorem get_description_failure_raises :
  forall (srv : HornbostelSachs.Server) (uri : string) (st : HornbostelSachs.State),
    fst (HornbostelSachs.details_page srv uri) <> 200 ->
    exists st',
      HornbostelSachs.get_description_from_uri srv uri st = (Raise UnboundLocalError, st')
      /\ HornbostelSachs.failed_urls st' = HornbostelSachs.failed_urls st
      /\ HornbostelSachs.http_log st' = (HornbostelSachs.http_log st ++ [uri])%list.
Proof.
  intros srv uri st H. apply Z.eqb_neq in H.
  unfold HornbostelSachs.get_description_from_uri, HornbostelSachs.requests_get.
  run. rewrite H. eexists. repeat split.
Qed.

Lemma get_description_failure_raises_witness :
  exists st',
    HornbostelSachs.get_description_from_uri
      (Scenario.classification 404 200 true)
      "http://www.mimo-db.eu/HornbostelAndSachs/123" HornbostelSachs.initial
    = (Raise UnboundLocalError, st')
    /\ HornbostelSachs.failed_urls st' = HornbostelSachs.failed_urls HornbostelSachs.initial
    /\ HornbostelSachs.http_log st' =
       (HornbostelSachs.http_log HornbostelSachs.initial
          ++ ["http://www.mimo-db.eu/HornbostelAndSachs/123"])%list.
Proof.
  apply (get_description_failure_raises (Scenario.classification 404 200 true)).
  simpl. lia.
Defined.

(** The whole classification crawl stops there: with one top-level concept
    whose details page answers 404, [main] raises and the failed-URL list
    stays empty. *)
Example classification_crawl_stops_on_failed_description :
  let r := HornbostelSachs.main (Scenario.classification 404 200 true) (-1) 5
                                HornbostelSachs.initial in
  fst r = Raise UnboundLocalError
  /\ HornbostelSachs.failed_urls (snd r) = []
  /\ HornbostelSachs.main_results (snd r) = [].
Proof. vm_compute. repeat split. Qed.

(** ** The visit cap (C3) *)

(** C3: the cap is checked only after a node has been emitted, and the
    translation [main] does not count the roots.  With [MAX_COUNT = 2] the
    translation crawl of [Scenario.translation] emits four entries and
    leaves the counter at 3; with [MAX_COUNT = 0] the classification crawl
    of a single top-level concept emits one entry. *)
Theorem cap_exceeded :
  (let r := Translation.main (Scenario.translation 200) 2 5 Translation.initial in
   fst r = Ok (sorted String.ltb Translation.Label (Translation.results (snd r)))
   /\ map Translation.Label (Translation.results (snd r))
      = ["Instruments"; "Aerophones"; "Flutes"; "Bells"]
   /\ Translation.count (snd r) = 3)
  /\
  (let r := HornbostelSachs.main (Scenario.classification 200 200 true) 0 5
                                 HornbostelSachs.initial in
   option_map (@List.length _)
     (match fst r with Ok d => Some d | _ => None end) = Some 1%nat
   /\ map fst (HornbostelSachs.main_results (snd r)) = ["211"]).
Proof. vm_compute. repeat split. Qed.

(** ** Instrument names (C10) *)

(** C10, as stated, fails: a 201 answer is a 2xx answer, yet the gate of
    [get_instrument_names_for_page] is [status_code != 200], so the URL is
    recorded as failed. *)
Lemma instrument_names_201_is_recorded :
  let srv := Scenario.classification 200 201 true in
  let url := HornbostelSachs.mappings_url "123" in
  let r := HornbostelSachs.get_instrument_names_for_page srv "123"
             HornbostelSachs.initial in
  200 <= fst (HornbostelSachs.mappings_doc srv url) < 300
  /\ snd (HornbostelSachs.mappings_doc srv url) = None
  /\ fst r = Ok []
  /\ HornbostelSachs.failed_urls (snd r) = [url]
  /\ HornbostelSachs.failed_urls (snd r)
     <> HornbostelSachs.failed_urls HornbostelSachs.initial.
Proof.
  cbv zeta. repeat split; try (vm_compute; congruence).
Qed.

(** C10 (amended): when the mappings endpoint answers with status 200 and
    its [mappings] field is [null], [get_instrument_names_for_page] returns
    the empty list and records no failed URL; when the field is a list, it
    returns the [prefLabel] of each mapping in source order, and records no
    failed URL either. *)
Theorem instrument_names_on_200 :
  forall (srv : HornbostelSachs.Server) (page : string) (st : HornbostelSachs.State),
    fst (HornbostelSachs.mappings_doc srv (HornbostelSachs.mappings_url page)) = 200 ->
    exists st',
      HornbostelSachs.get_instrument_names_for_page srv page st
      = (Ok (match snd (HornbostelSachs.mappings_doc srv
                          (HornbostelSachs.mappings_url page)) with
             | None => []
             | Some l => map HornbostelSachs.prefLabel l
             end), st')
      /\ HornbostelSachs.failed_urls st' = HornbostelSachs.failed_urls st.
Proof.
  intros srv page st H.
  unfold HornbostelSachs.get_instrument_names_for_page, HornbostelSachs.requests_get.
  run. rewrite H. simpl.
  destruct (snd _); eexists; split; reflexivity.
Qed.

Lemma instrument_names_on_200_witness :
  exists st',
    HornbostelSachs.get_instrument_names_for_page
      (HornbostelSachs.mkServer
         (fun _ => (200, []))
         (fun _ => (200, Some [HornbostelSachs.mkMapping "frame drum";
                               HornbostelSachs.mkMapping "tabor"]))
         (fun _ => (200, HornbostelSachs.mkHierarchy None)) (200, []))
      "123" HornbostelSachs.initial
    = (Ok ["frame drum"; "tabor"], st')
    /\ HornbostelSachs.failed_urls st' = [].
Proof.
  apply (instrument_names_on_200
           (HornbostelSachs.mkServer
              (fun _ => (200, []))
              (fun _ => (200, Some [HornbostelSachs.mkMapping "frame drum";
                                    HornbostelSachs.mkMapping "tabor"]))
              (fun _ => (200, HornbostelSachs.mkHierarchy None)) (200, []))
           "123" HornbostelSachs.initial).
  reflexivity.
Defined.

(** ** The longest description (C5) *)

Section LastOfSorted.
Context {A : Type} (key : A -> nat).

Lemma item_last_app (l : list A) (x : A) : item_last (l ++ [x]) = Some x.
Proof.
  induction l as [|y l IH]; [reflexivity|].
  simpl. destruct (l ++ [x])%list eqn:E.
  - destruct l; discriminate.
  - exact IH.
Qed.

Lemma item_last_cons (y : A) (l : list A) :
  l <> [] -> item_last (y :: l) = item_last l.
Proof. destruct l; [congruence|reflexivity]. Qed.

Lemma insert_not_nil (x : A) (l : list A) : insert Nat.ltb key x l <> [].
Proof. destruct l; simpl; [|destruct (_ <? _)%nat]; discriminate. Qed.

Lemma insert_In (x y : A) (l : list A) :
  In y (insert Nat.ltb key x l) <-> y = x \/ In y l.
Proof.
  induction l as [|z l IH]; simpl.
  - intuition.
  - destruct (key z <? key x)%nat; simpl; rewrite ?IH; intuition.
Qed.

Lemma forallb_false {B} (p : B -> bool) (l : list B) :
  forallb p l = false -> exists z, In z l /\ p z = false.
Proof.
  induction l as [|b l IH]; simpl; [discriminate|].
  destruct (p b) eqn:E; simpl.
  - intros H. destruct (IH H) as (z & Hz & Hp). exists z. auto.
  - intros _. exists b. auto.
Qed.

Lemma sorted_In (y : A) (l : list A) :
  In y (sorted Nat.ltb key l) <-> In y l.
Proof.
  induction l as [|x l IH]; simpl; [tauto|].
  rewrite insert_In, IH. intuition.
Qed.

(** The last element after an insertion is the inserted one exactly when
    every key already there is below its key. *)
Lemma item_last_insert (x : A) (l : list A) :
  item_last (insert Nat.ltb key x l) =
  if forallb (fun y => key y <? key x)%nat l then Some x else item_last l.
Proof.
  induction l as [|y l IH]; [reflexivity|].
  cbn [insert forallb].
  destruct (key y <? key x)%nat eqn:E; cbn [andb].
  - rewrite item_last_cons by apply insert_not_nil.
    rewrite IH. destruct (forallb _ l) eqn:F; [reflexivity|].
    destruct l as [|z l]; [discriminate|reflexivity].
  - reflexivity.
Qed.

(** [sorted(l, key=key)[-1]] is the last element of [l] among those of
    greatest key. *)
Lemma item_last_sorted (l : list A) :
  l <> [] ->
  exists pre d post,
    item_last (sorted Nat.ltb key l) = Some d
    /\ l = (pre ++ d :: post)%list
    /\ (forall x, In x pre -> (key x <= key d)%nat)
    /\ (forall x, In x post -> (key x < key d)%nat).
Proof.
  induction l as [|x l IH]; [congruence|]. intros _.
  cbn [sorted fold_right]. fold (sorted Nat.ltb key l).
  rewrite item_last_insert.
  destruct (forallb _ (sorted Nat.ltb key l)) eqn:F.
  - exists [], x, l. repeat split.
    + intros y [].
    + intros y Hy. rewrite forallb_forall in F.
      apply Nat.ltb_lt, F, sorted_In, Hy.
  - destruct l as [|x' l']; [discriminate|].
    destruct IH as (pre & d & post & Hl & Hd & Hpre & Hpost); [discriminate|].
    exists (x :: pre), d, post. repeat split; auto.
    + rewrite Hd. reflexivity.
    + intros y [Hy|Hy]; [subst y|auto].
      assert (exists z, In z (x' :: l') /\ (key x <= key z)%nat) as (z & Hz & Hle).
      { apply forallb_false in F. destruct F as (z & Hz & Hlt).
        exists z. split; [apply sorted_In, Hz|].
        apply Nat.ltb_ge in Hlt. exact Hlt. }
      rewrite Hd in Hz. apply in_app_or in Hz.
      destruct Hz as [Hz|[<-|Hz]].
      * specialize (Hpre _ Hz). lia.
      * exact Hle.
      * specialize (Hpost _ Hz). lia.
Qed.

End LastOfSorted.

(** C5: when the details page answers 200 with a non-empty list of
    candidate texts, [get_description_from_uri] returns a candidate [d] of
    greatest length, and the last such one in source order: no candidate
    before [d] is longer, and every candidate after [d] is strictly
    shorter. *)
Theorem get_description_longest_last :
  forall (srv : HornbostelSachs.Server) (uri : string) (st : HornbostelSachs.State)
         (li_texts : list string),
    HornbostelSachs.details_page srv uri = (200, li_texts) ->
    li_texts <> [] ->
    exists pre d post st',
      HornbostelSachs.get_description_from_uri srv uri st = (Ok d, st')
      /\ li_texts = (pre ++ d :: post)%list
      /\ (forall x, In x pre -> (String.length x <= String.length d)%nat)
      /\ (forall x, In x post -> (String.length x < String.length d)%nat).
Proof.
  intros srv uri st li_texts Hpage Hne.
  destruct (item_last_sorted String.length Hne)
    as (pre & d & post & Hlast & Hsplit & Hpre & Hpost).
  exists pre, d, post.
  unfold HornbostelSachs.get_description_from_uri, HornbostelSachs.requests_get.
  run. rewrite Hpage. simpl. rewrite Hlast.
  eexists. repeat split; assumption.
Qed.

Lemma get_description_longest_last_witness :
  exists pre d post st',
    HornbostelSachs.get_description_from_uri
      (HornbostelSachs.mkServer
         (fun _ => (200, ["abc"; "xyz"; "no"]))
         (fun _ => (200, None))
         (fun _ => (200, HornbostelSachs.mkHierarchy None)) (200, []))
      "http://www.mimo-db.eu/HornbostelAndSachs/123" HornbostelSachs.initial
    = (Ok d, st')
    /\ ["abc"; "xyz"; "no"] = (pre ++ d :: post)%list
    /\ (forall x, In x pre -> (String.length x <= String.length d)%nat)
    /\ (forall x, In x post -> (String.length x < String.length d)%nat).
Proof.
  apply (get_description_longest_last
           (HornbostelSachs.mkServer
              (fun _ => (200, ["abc"; "xyz"; "no"]))
              (fun _ => (200, None))
              (fun _ => (200, HornbostelSachs.mkHierarchy None)) (200, []))
           "http://www.mimo-db.eu/HornbostelAndSachs/123" HornbostelSachs.initial).
  - reflexivity.
  - discriminate.
Defined.

(** The two examples of the specification. *)
Example longest_description_examples :
  item_last (sorted Nat.ltb String.length ["drum"; "frame drum"; "membrane idiophone"])
  = Some "membrane idiophone"
  /\ item_last (sorted Nat.ltb String.length ["abc"; "xyz"]) = Some "xyz".
Proof. split; reflexivity. Qed.

(** ** The default ordering of strings *)

Lemma ascii_compare_refl (a : ascii) : Ascii.compare a a = Eq.
Proof. unfold Ascii.compare. apply N.compare_refl. Qed.

Lemma ascii_compare_lt_trans (a b c : ascii) :
  Ascii.compare a b = Lt -> Ascii.compare b c = Lt -> Ascii.compare a c = Lt.
Proof.
  unfold Ascii.compare. rewrite !N.compare_lt_iff. apply N.lt_trans.
Qed.

Lemma string_compare_refl (s : string) : String.compare s s = Eq.
Proof.
  induction s as [|a s IH]; [reflexivity|].
  simpl. now rewrite ascii_compare_refl.
Qed.

Lemma string_compare_lt_trans (s t u : string) :
  String.compare s t = Lt -> String.compare t u = Lt -> String.compare s u = Lt.
Proof.
  revert t u. induction s as [|a s IH]; intros [|b t] [|c u]; simpl;
    try discriminate; try reflexivity.
  destruct (Ascii.compare a b) eqn:Eab; try discriminate;
    destruct (Ascii.compare b c) eqn:Ebc; try discriminate; intros H1 H2.
  - apply Ascii.compare_eq_iff in Eab, Ebc. subst.
    rewrite ascii_compare_refl. eapply IH; eassumption.
  - apply Ascii.compare_eq_iff in Eab. subst. now rewrite Ebc.
  - apply Ascii.compare_eq_iff in Ebc. subst. now rewrite Eab.
  - now rewrite (ascii_compare_lt_trans _ _ _ Eab Ebc).
Qed.

Lemma string_ltb_irrefl (s : string) : String.ltb s s = false.
Proof. unfold String.ltb. now rewrite string_compare_refl. Qed.

Lemma string_ltb_trans (s t u : string) :
  String.ltb s t = true -> String.ltb t u = true -> String.ltb s u = true.
Proof.
  unfold String.ltb. intros H1 H2.
  destruct (String.compare s t) eqn:E1; try discriminate.
  destruct (String.compare t u) eqn:E2; try discriminate.
  now rewrite (string_compare_lt_trans _ _ _ E1 E2).
Qed.

Lemma string_ltb_asym (s t : string) :
  String.ltb s t = true -> String.ltb t s = false.
Proof.
  unfold String.ltb. rewrite (String.compare_antisym s t).
  destruct (String.compare t s); simpl; congruence.
Qed.

(** [not (t < s)] means [s < t] or [s = t]. *)
Lemma string_ltb_false (s t : string) :
  String.ltb t s = false -> String.ltb s t = true \/ s = t.
Proof.
  unfold String.ltb. rewrite (String.compare_antisym s t).
  destruct (String.compare t s) eqn:E; simpl; try discriminate; auto.
  apply String.compare_eq_iff in E. auto.
Qed.

Lemma string_le_trans (s t u : string) :
  String.ltb t s = false -> String.ltb u t = false -> String.ltb u s = false.
Proof.
  intros H1 H2.
  destruct (string_ltb_false _ _ H1) as [L1|<-]; [|assumption].
  destruct (string_ltb_false _ _ H2) as [L2|<-]; [|assumption].
  apply string_ltb_asym. eapply string_ltb_trans; eassumption.
Qed.

(** ** Facts about [sorted] *)

Section SortedFacts.
Context {A K : Type} (ltb : K -> K -> bool) (key : A -> K).

Lemma insert_perm (x : A) (l : list A) : Permutation (x :: l) (insert ltb key x l).
Proof.
  induction l as [|y l IH]; simpl; [reflexivity|].
  destruct (ltb (key y) (key x)); [|reflexivity].
  rewrite perm_swap. now apply perm_skip.
Qed.

Lemma sorted_perm (l : list A) : Permutation l (sorted ltb key l).
Proof.
  induction l as [|x l IH]; simpl; [reflexivity|].
  rewrite <- insert_perm. now apply perm_skip.
Qed.

Lemma sorted_In_iff (x : A) (l : list A) : In x (sorted ltb key l) <-> In x l.
Proof.
  split; apply Permutation_in; [symmetry|]; apply sorted_perm.
Qed.

Hypothesis ltb_asym : forall a b, ltb a b = true -> ltb b a = false.
Hypothesis le_trans :
  forall a b c, ltb b a = false -> ltb c b = false -> ltb c a = false.

(** [x] stands before [y] in a sorted list only if [key y] is not below
    [key x]. *)
Definition key_le (x y : A) : Prop := ltb (key y) (key x) = false.

Lemma insert_sorted (x : A) (l : list A) :
  StronglySorted key_le l -> StronglySorted key_le (insert ltb key x l).
Proof.
  induction 1 as [|y l Hs IH Hall]; simpl.
  - constructor; constructor.
  - destruct (ltb (key y) (key x)) eqn:E.
    + constructor; [assumption|].
      rewrite Forall_forall in *. intros z Hz.
      apply (Permutation_in _ (Permutation_sym (insert_perm x l))) in Hz.
      destruct Hz as [<-|Hz]; [|auto].
      apply ltb_asym, E.
    + constructor; [constructor; assumption|].
      constructor; [exact E|].
      rewrite Forall_forall in *. intros z Hz.
      unfold key_le in *. eapply le_trans; [exact E|auto].
Qed.

Lemma sorted_sorted (l : list A) : StronglySorted key_le (sorted ltb key l).
Proof.
  induction l as [|x l IH]; simpl; [constructor|].
  now apply insert_sorted.
Qed.

End SortedFacts.

(** Two sorts agree on a list as soon as their comparisons agree on its
    elements. *)
Section SortedExt.
Context {A K1 K2 : Type} (ltb1 : K1 -> K1 -> bool) (key1 : A -> K1)
        (ltb2 : K2 -> K2 -> bool) (key2 : A -> K2).

Lemma insert_ext (x : A) (l : list A) :
  (forall y, In y l -> ltb1 (key1 y) (key1 x) = ltb2 (key2 y) (key2 x)) ->
  insert ltb1 key1 x l = insert ltb2 key2 x l.
Proof.
  induction l as [|y l IH]; intros H; simpl; [reflexivity|].
  rewrite (H y) by (left; reflexivity).
  rewrite IH by (intros; apply H; right; assumption).
  reflexivity.
Qed.

Lemma sorted_ext (l : list A) :
  (forall x y, In x l -> In y l ->
               ltb1 (key1 y) (key1 x) = ltb2 (key2 y) (key2 x)) ->
  sorted ltb1 key1 l = sorted ltb2 key2 l.
Proof.
  induction l as [|x l IH]; intros H; simpl; [reflexivity|].
  fold (sorted ltb1 key1 l). fold (sorted ltb2 key2 l).
  rewrite <- IH by (intros; apply H; right; assumption).
  apply insert_ext. intros y Hy. apply sorted_In_iff in Hy.
  apply H; [left; reflexivity|right; assumption].
Qed.

End SortedExt.

(** Sorting decorated items by their decoration is sorting the items by
    the decorating function. *)
Section Decorated.
Context {A K : Type} (ltb : K -> K -> bool) (f : A -> K).

Let pair_up (x : A) : K * A := (f x, x).

Lemma insert_decorated (x : A) (l : list A) :
  insert ltb fst (pair_up x) (map pair_up l) = map pair_up (insert ltb f x l).
Proof.
  induction l as [|y l IH]; simpl; [reflexivity|].
  destruct (ltb (f y) (f x)); simpl; [now rewrite IH|reflexivity].
Qed.

Lemma sorted_decorated (l : list A) :
  map snd (sorted ltb fst (map pair_up l)) = sorted ltb f l.
Proof.
  assert (H : sorted ltb fst (map pair_up l) = map pair_up (sorted ltb f l)).
  { induction l as [|x l IH]; simpl; [reflexivity|].
    fold (sorted ltb fst (map pair_up l)). rewrite IH.
    apply insert_decorated. }
  rewrite H, map_map. simpl. apply map_id.
Qed.

Lemma decorate_total (key : A -> option K) (l : list A) :
  (forall x, In x l -> key x = Some (f x)) ->
  decorate key l = Some (map pair_up l).
Proof.
  induction l as [|x l IH]; intros H; simpl; [reflexivity|].
  rewrite (H x) by (left; reflexivity).
  rewrite IH by (intros; apply H; right; assumption).
  reflexivity.
Qed.

End Decorated.

(** ** Dicts and positions *)

Lemma index_In (x : string) (l : list string) :
  In x l -> exists n, index x l = Some n.
Proof.
  induction l as [|y l IH]; simpl; [tauto|].
  intros H. destruct (String.eqb y x) eqn:E; [eauto|].
  apply String.eqb_neq in E.
  destruct H as [H|H]; [congruence|].
  destruct (IH H) as (n & ->). simpl. eauto.
Qed.

(** In a sorted list of strings, positions compare as the strings do. *)
Lemma index_sorted (l : list string) :
  StronglySorted (fun a b => String.ltb b a = false) l ->
  forall a b i j,
    index a l = Some i -> index b l = Some j ->
    (i <? j)%nat = String.ltb a b.
Proof.
  induction 1 as [|y l Hs IH Hall]; intros a b i j; simpl; [discriminate|].
  rewrite Forall_forall in Hall.
  assert (Hin : forall x n, index x l = Some n -> In x l).
  { clear. induction l as [|z l IH]; simpl; [discriminate|].
    intros x n. destruct (String.eqb z x) eqn:E.
    - apply String.eqb_eq in E. auto.
    - destruct (index x l) eqn:I; [|discriminate]. intros _. right. eauto. }
  destruct (String.eqb y a) eqn:Ea, (String.eqb y b) eqn:Eb.
  - apply String.eqb_eq in Ea, Eb. subst. intros [= <-] [= <-].
    now rewrite string_ltb_irrefl.
  - apply String.eqb_eq in Ea. apply String.eqb_neq in Eb. subst.
    destruct (index b l) as [n|] eqn:I; [|discriminate].
    intros [= <-] [= <-]. simpl.
    destruct (string_ltb_false _ _ (Hall b (Hin _ _ I))) as [L|L]; [now rewrite L|congruence].
  - apply String.eqb_eq in Eb. subst.
    destruct (index a l) as [n|] eqn:I; [|discriminate].
    intros [= <-] [= <-]. simpl.
    symmetry. apply (Hall a (Hin _ _ I)).
  - destruct (index a l) as [n|] eqn:Ia; [|discriminate].
    destruct (index b l) as [m|] eqn:Ib; [|discriminate].
    intros [= <-] [= <-]. rewrite <- (IH a b n m Ia Ib). reflexivity.
Qed.

Section DictFacts.
Context {V : Type}.

Lemma dict_set_fresh (d : dict string V) (k : string) (v : V) :
  ~ In k (map fst d) -> dict_set String.eqb d k v = (d ++ [(k, v)])%list.
Proof.
  induction d as [|[k' v'] d IH]; simpl; [reflexivity|].
  intros H. destruct (String.eqb k' k) eqn:E.
  - apply String.eqb_eq in E. tauto.
  - rewrite IH by tauto. reflexivity.
Qed.

Lemma dict_of_items_nodup_from (items acc : list (string * V)) :
  NoDup (map fst (acc ++ items)) ->
  fold_left (fun d kv => dict_set String.eqb d (fst kv) (snd kv)) items acc
  = (acc ++ items)%list.
Proof.
  revert acc. induction items as [|[k v] items IH]; intros acc H; simpl.
  - now rewrite app_nil_r.
  - rewrite dict_set_fresh.
    + rewrite IH; rewrite <- app_assoc; [reflexivity|exact H].
    + rewrite map_app in H. apply NoDup_remove_2 in H.
      intros Hin. apply H. apply in_or_app. now left.
Qed.

(** [dict(items)] keeps a list of items with distinct keys as it is. *)
Lemma dict_of_items_nodup (items : list (string * V)) :
  NoDup (map fst items) -> dict_of_items String.eqb items = items.
Proof. intros H. apply (dict_of_items_nodup_from items [] H). Qed.

(** With distinct keys, a list sorted by key is strictly ascending. *)
Lemma sorted_strict (l : list (string * V)) :
  StronglySorted (fun a b => String.ltb (fst b) (fst a) = false) l ->
  NoDup (map fst l) ->
  StronglySorted (fun a b => String.ltb (fst a) (fst b) = true) l.
Proof.
  induction 1 as [|x l Hs IH Hall]; simpl; intros Hnd; [constructor|].
  inversion Hnd as [|? ? Hx Hnd']; subst.
  constructor; [auto|].
  rewrite Forall_forall in *. intros y Hy.
  destruct (string_ltb_false _ _ (Hall y Hy)) as [Hlt|Heq]; [assumption|].
  exfalso. apply Hx. rewrite Heq. now apply in_map.
Qed.

End DictFacts.

(** ** The order of the classification output (C7) *)

(** C7: for every mapping from notation code to entry (a dict, so with
    distinct keys), [sort_results] returns, without raising, exactly the
    plain sort of its items by key; that result has the same key-value pairs
    as the input, and its keys ascend strictly in the default ordering of
    strings. *)
Theorem sort_results_is_plain_sort :
  forall results : dict string HornbostelSachs.Entry,
    NoDup (map fst results) ->
    HornbostelSachs.sort_results results
      = Ok (Spec.sort_by_notation_ascending results)
    /\ Permutation results (Spec.sort_by_notation_ascending results)
    /\ StronglySorted (fun a b => String.ltb (fst a) (fst b) = true)
                      (Spec.sort_by_notation_ascending results).
Proof.
  intros results Hnd.
  unfold Spec.sort_by_notation_ascending.
  assert (Hperm : Permutation results (sorted String.ltb fst results))
    by apply sorted_perm.
  assert (Hnd' : NoDup (map fst (sorted String.ltb fst results))).
  { eapply Permutation_NoDup; [|exact Hnd]. now apply Permutation_map. }
  split; [|split].
  - unfold HornbostelSachs.sort_results.
    set (ks := sorted String.ltb (fun k : string => k) (map fst results)).
    set (pos := fun x : string * HornbostelSachs.Entry =>
                  match index (fst x) ks with Some n => n | None => 0%nat end).
    assert (Hpos : forall x, In x results -> index (fst x) ks = Some (pos x)).
    { intros x Hx. unfold pos.
      destruct (index_In (fst x) ks) as (n & ->); [|reflexivity].
      apply sorted_In_iff. now apply in_map. }
    rewrite (decorate_total pos _ results Hpos).
    rewrite (sorted_decorated Nat.ltb pos results).
    rewrite (sorted_ext Nat.ltb pos String.ltb fst results).
    + now rewrite dict_of_items_nodup.
    + intros x y Hx Hy.
      apply (index_sorted (l := ks)); [|now apply Hpos|now apply Hpos].
      apply (sorted_sorted String.ltb (fun k : string => k)).
      * apply string_ltb_asym.
      * apply string_le_trans.
  - exact Hperm.
  - apply sorted_strict; [|exact Hnd'].
    apply (sorted_sorted String.ltb (@fst string HornbostelSachs.Entry)).
    + apply string_ltb_asym.
    + apply string_le_trans.
Qed.

Lemma sort_results_is_plain_sort_witness :
  let a := HornbostelSachs.mkEntry "Bells" [] "struck" "1" in
  let b := HornbostelSachs.mkEntry "Gongs" [] "struck too" "2" in
  HornbostelSachs.sort_results [("112", b); ("111", a)]
    = Ok (Spec.sort_by_notation_ascending [("112", b); ("111", a)])
  /\ Permutation [("112", b); ("111", a)]
       (Spec.sort_by_notation_ascending [("112", b); ("111", a)])
  /\ StronglySorted (fun a b => String.ltb (fst a) (fst b) = true)
       (Spec.sort_by_notation_ascending [("112", b); ("111", a)]).
Proof.
  intros a b.
  apply (sort_results_is_plain_sort [("112", b); ("111", a)]).
  repeat constructor; simpl; intuition discriminate.
Defined.

(** The ordering scenario: whichever of "111" and "112" was discovered
    first, "111" comes out first. *)
Example sort_results_111_112 :
  forall a b : HornbostelSachs.Entry,
    HornbostelSachs.sort_results [("112", b); ("111", a)]
      = Ok [("111", a); ("112", b)]
    /\ HornbostelSachs.sort_results [("111", a); ("112", b)]
      = Ok [("111", a); ("112", b)].
Proof. intros a b. split; reflexivity. Qed.

(** ** Removing duplicates (C8) *)

Section RemoveDuplicates.
Import Translation.

Lemma seen_In (s : string) (seen : list string) :
  existsb (String.eqb s) seen = true <-> In s seen.
Proof.
  rewrite existsb_exists. split.
  - intros (x & Hx & E). apply String.eqb_eq in E. now subst.
  - intros H. exists s. split; [assumption|apply String.eqb_refl].
Qed.

(** The loop only ever appends to [unique_data], and what it appends does
    not depend on what was there. *)
Lemma loop_appends (l : list Entry) :
  forall seen acc r,
    remove_duplicates_loop seen acc l = Ok r ->
    exists k, r = (acc ++ k)%list
              /\ forall acc', remove_duplicates_loop seen acc' l = Ok (acc' ++ k)%list.
Proof.
  induction l as [|e l IH]; intros seen acc r; simpl.
  - intros [= <-]. exists []. split; [now rewrite app_nil_r|].
    intros acc'. now rewrite app_nil_r.
  - destruct (json_dumps e) as [s| |]; try discriminate.
    destruct (existsb (String.eqb s) seen); simpl; intros H.
    + apply IH in H. exact H.
    + apply IH in H. destruct H as (k & -> & Hk).
      exists (e :: k). split; [now rewrite <- app_assoc|].
      intros acc'. rewrite Hk. now rewrite <- app_assoc.
Qed.

(** Running the loop again over what it kept, with no more strings seen
    than the first time, keeps everything. *)
Lemma loop_fixed_point (l : list Entry) :
  forall seen acc k seen' acc',
    remove_duplicates_loop seen acc l = Ok (acc ++ k)%list ->
    (forall s, In s seen' -> In s seen) ->
    remove_duplicates_loop seen' acc' k = Ok (acc' ++ k)%list.
Proof.
  induction l as [|e l IH]; intros seen acc k seen' acc'; simpl.
  - intros [= H] _. rewrite <- (app_nil_r acc) in H at 1.
    apply app_inv_head in H. subst k. simpl. now rewrite app_nil_r.
  - destruct (json_dumps e) as [s| |] eqn:Es; try discriminate.
    destruct (existsb (String.eqb s) seen) eqn:Eseen; simpl; intros H Hsub.
    + eapply IH; eassumption.
    + destruct (loop_appends _ _ _ H) as (k' & Hk' & _).
      rewrite <- app_assoc in Hk'. apply app_inv_head in Hk'. subst k.
      simpl. rewrite Es.
      assert (Hnew : existsb (String.eqb s) seen' = false).
      { destruct (existsb (String.eqb s) seen') eqn:E; [|reflexivity].
        apply seen_In, Hsub, seen_In in E. congruence. }
      rewrite Hnew. simpl.
      replace (acc' ++ e :: k')%list with ((acc' ++ [e]) ++ k')%list
        by now rewrite <- app_assoc.
      apply (IH (s :: seen) (acc ++ [e])%list).
      * rewrite H. now rewrite <- app_assoc.
      * intros x [<-|Hx]; [now left|right; auto].
Qed.

(** An entry whose serialization differs from that of every entry before
    it, and from every string seen so far, is kept at its place. *)
Lemma loop_keeps_new (pre : list Entry) (e : Entry) (post : list Entry) :
  forall seen acc r,
    remove_duplicates_loop seen acc (pre ++ e :: post) = Ok r ->
    (forall e0, In e0 pre -> json_dumps e0 <> json_dumps e) ->
    (forall s, json_dumps e = Ok s -> ~ In s seen) ->
    exists u v, remove_duplicates_loop seen acc pre = Ok u
                /\ r = (u ++ e :: v)%list.
Proof.
  induction pre as [|p pre IH]; intros seen acc r; simpl.
  - destruct (json_dumps e) as [s| |] eqn:Es; try discriminate.
    intros H _ Hseen.
    destruct (existsb (String.eqb s) seen) eqn:E.
    + apply seen_In in E. now elim (Hseen s).
    + simpl in H. destruct (loop_appends _ _ _ H) as (k & -> & _).
      exists acc, k. split; [reflexivity|now rewrite <- app_assoc].
  - destruct (json_dumps p) as [sp| |] eqn:Ep; try discriminate.
    intros H Hpre Hseen.
    destruct (existsb (String.eqb sp) seen) eqn:E; simpl in *.
    + apply (IH _ _ _ H); auto.
    + apply (IH _ _ _ H); [auto|].
      intros s Hs [<-|Hin]; [|now apply (Hseen s)].
      apply (Hpre p); [now left|congruence].
Qed.

End RemoveDuplicates.

(** C8: whenever [remove_duplicates] returns a list, applying it to that
    list returns the same list; and an entry of the input whose
    serialization [json.dumps(entry, sort_keys=True)] differs from that of
    every earlier entry is kept, right after what is kept of the entries
    before it. *)
Theorem remove_duplicates_idempotent :
  forall l l' : list Translation.Entry,
    Translation.remove_duplicates l = Ok l' ->
    Translation.remove_duplicates l' = Ok l'
    /\ forall pre e post,
        l = (pre ++ e :: post)%list ->
        (forall e0, In e0 pre ->
                    Translation.json_dumps e0 <> Translation.json_dumps e) ->
        exists u v, Translation.remove_duplicates pre = Ok u
                    /\ l' = (u ++ e :: v)%list.
Proof.
  unfold Translation.remove_duplicates. intros l l' H. split.
  - apply (loop_fixed_point l [] [] l' [] [] H). auto.
  - intros pre e post -> Hpre.
    apply (loop_keeps_new _ _ _ _ _ H Hpre). intros s _ [].
Qed.

Lemma remove_duplicates_idempotent_witness :
  let flute := Translation.mkEntry "Flute"
                 (Some [(Some "en", Some "Flute"); (Some "de", Some "Floete")]) "12" in
  let horn := Translation.mkEntry "Horn" None "13" in
  Translation.remove_duplicates [flute; horn]
  = Ok [flute; horn].
Proof.
  intros flute horn.
  apply (@remove_duplicates_idempotent [flute; flute; horn; flute] [flute; horn]).
  vm_compute. reflexivity.
Defined.

(** Entries that agree on some fields only are both kept; an exact copy is
    dropped. *)
Example remove_duplicates_partial_overlap :
  let a := Translation.mkEntry "Flute" (Some [(Some "en", Some "Flute")]) "12" in
  let b := Translation.mkEntry "Flute" (Some [(Some "en", Some "Flute")]) "14" in
  Translation.remove_duplicates [a; b; a] = Ok [a; b].
Proof. vm_compute. reflexivity. Qed.

(** ** Translations (C6) *)

Section Labels.
Import Translation.

Abbreviation oeqb := (option_eqb String.eqb).

Lemma option_eqb_eq (a b : option string) : oeqb a b = true <-> a = b.
Proof.
  destruct a, b; simpl; try (split; congruence).
  rewrite String.eqb_eq. split; congruence.
Qed.












End Labels.



(** Scenario B: the two direct labels make up the whole mapping; the labels
    of the broader concept nested in the same document are not in it. *)
Example get_translations_flute :
  fst (Translation.get_translations Scenario.flute_service "12" Translation.initial)
  = Ok (Some [(Some "en", Some "Flute"); (Some "de", Some Scenario.floete)]).
Proof. vm_compute. reflexivity. Qed.

(** ** What a run leaves untouched *)

(** [respects R m]: whatever the outcome of [m], the store it leaves is
    related by [R] to the store it started from. *)
Section Respects.
Context {S : Type} (R : S -> S -> Prop).
Hypothesis R_refl : forall s, R s s.
Hypothesis R_trans : forall a b c, R a b -> R b c -> R a c.

Definition respects {A} (m : M S A) : Prop := forall s, R s (snd (m s)).

Lemma respects_ret {A} (a : A) : respects (ret a).
Proof. intros s. apply R_refl. Qed.

Lemma respects_raise {A} (e : exn) : respects (@raise S A e).
Proof. intros s. apply R_refl. Qed.

Lemma respects_diverge {A} : respects (@diverge S A).
Proof. intros s. apply R_refl. Qed.

Lemma respects_get : respects (@get S).
Proof. intros s. apply R_refl. Qed.

Lemma respects_of_outcome {A} (o : outcome A) : respects (@of_outcome S A o).
Proof. intros s. apply R_refl. Qed.

Lemma respects_modify (f : S -> S) : (forall s, R s (f s)) -> respects (modify f).
Proof. intros H s. apply H. Qed.

Lemma respects_bind {A B} (m : M S A) (k : A -> M S B) :
  respects m -> (forall a, respects (k a)) -> respects (bind m k).
Proof.
  intros Hm Hk s. unfold bind. specialize (Hm s).
  destruct (m s) as [[a|e|] s']; simpl in *; [|assumption|assumption].
  eapply R_trans; [exact Hm|apply Hk].
Qed.

Lemma respects_for_each {A} (body : A -> M S flow) (l : list A) :
  (forall x, respects (body x)) -> respects (for_each body l).
Proof.
  intros Hb. induction l as [|x l IH]; intros s; simpl.
  - apply R_refl.
  - specialize (Hb x s).
    destruct (body x s) as [[[|]|e|] s']; simpl in *; try assumption.
    eapply R_trans; [exact Hb|apply IH].
Qed.

End Respects.

Ltac respects_with Hrefl Htrans :=
  repeat (match goal with
          | |- respects ?R (bind _ _) => apply (@respects_bind _ R Htrans)
          | |- respects ?R (for_each _ _) =>
              apply (@respects_for_each _ R Hrefl Htrans)
          | |- respects ?R (ret _) => apply (@respects_ret _ R Hrefl)
          | |- respects ?R (raise _) => apply (@respects_raise _ R Hrefl)
          | |- respects ?R diverge => apply (@respects_diverge _ R Hrefl)
          | |- respects ?R get => apply (@respects_get _ R Hrefl)
          | |- respects ?R (of_outcome _) => apply (@respects_of_outcome _ R Hrefl)
          | |- respects _ (modify _) => apply respects_modify; intros; simpl
          | |- respects _ (if ?b then _ else _) => destruct b
          | |- respects _ (match ?x with _ => _ end) => destruct x
          | |- forall _, _ => intro
          end).

(** *** The classification crawl outside the loop of [main] never touches
    the dict of [main], and only ever appends to the request log *)

Section ClassificationFrame.
Import HornbostelSachs.
Variable srv : Server.
Variable MAX_COUNT : Z.

Definition same_main_results (st st' : State) : Prop :=
  main_results st' = main_results st
  /\ exists log_more, http_log st' = (http_log st ++ log_more)%list.

Lemma same_refl : forall s, same_main_results s s.
Proof. intros s. split; [reflexivity|]. exists []. now rewrite app_nil_r. Qed.

Lemma same_trans :
  forall a b c, same_main_results a b -> same_main_results b c ->
                same_main_results a c.
Proof.
  intros a b c [H1 (l1 & L1)] [H2 (l2 & L2)]. split; [congruence|].
  exists (l1 ++ l2)%list. now rewrite L2, L1, app_assoc.
Qed.

Ltac frame :=
  respects_with same_refl same_trans;
  try (split; [reflexivity|]; eexists; simpl;
       first [reflexivity | symmetry; apply app_nil_r]).

Lemma get_description_frame uri :
  respects same_main_results (get_description_from_uri srv uri).
Proof. unfold get_description_from_uri, requests_get. frame. Qed.

Lemma get_instrument_names_frame page :
  respects same_main_results (get_instrument_names_for_page srv page).
Proof.
  unfold get_instrument_names_for_page, requests_get, failed_urls_append. frame.
Qed.

Lemma fetch_hierarchy_frame page :
  respects same_main_results (fetch_hierarchy srv page).
Proof. unfold fetch_hierarchy, requests_get, failed_urls_append. frame. Qed.

Lemma count_visit_frame : respects same_main_results (count_visit MAX_COUNT).
Proof. unfold count_visit, counter_increment. frame. Qed.

Lemma visit_child_frame expand depth c :
  (forall h d u, respects same_main_results (expand h d u)) ->
  respects same_main_results (visit_child srv MAX_COUNT expand depth c).
Proof.
  intros He. unfold visit_child, results_setitem.
  apply (@respects_bind _ same_main_results same_trans);
    [apply get_description_frame|].
  intros d.
  apply (@respects_bind _ same_main_results same_trans);
    [apply get_instrument_names_frame|].
  intros names.
  frame; first [apply count_visit_frame|apply fetch_hierarchy_frame|apply He].
Qed.

Lemma process_hierarchy_frame fuel :
  forall h d u,
    respects same_main_results (process_hierarchy srv MAX_COUNT fuel h d u).
Proof.
  induction fuel as [|fuel IH]; intros h d u; simpl.
  - apply (@respects_diverge _ same_main_results same_refl).
  - frame. apply visit_child_frame. apply IH.
Qed.

(** The enrichment of a concept whose details page answers 200 with some
    candidate texts succeeds, whatever the mappings endpoint answers. *)
Lemma get_instrument_names_spec page st :
  exists names st1,
    get_instrument_names_for_page srv page st = (Ok names, st1)
    /\ main_results st1 = main_results st
    /\ count st1 = count st
    /\ http_log st1 = (http_log st ++ [mappings_url page])%list.
Proof.
  unfold get_instrument_names_for_page, requests_get, failed_urls_append. run.
  destruct (negb _); simpl; [|destruct (snd _)]; eexists _, _; repeat split.
Qed.

Lemma get_description_spec uri st texts :
  details_page srv uri = (200, texts) -> texts <> [] ->
  exists d st1,
    get_description_from_uri srv uri st = (Ok d, st1)
    /\ In d texts
    /\ main_results st1 = main_results st
    /\ count st1 = count st
    /\ http_log st1 = (http_log st ++ [uri])%list.
Proof.
  intros Hpage Hne.
  destruct (item_last_sorted String.length Hne)
    as (pre & d & post & Hlast & Hsplit & _).
  unfold get_description_from_uri, requests_get. run.
  rewrite Hpage. simpl. rewrite Hlast.
  eexists _, _. repeat split.
  rewrite Hsplit. apply in_or_app. right. now left.
Qed.



Lemma dict_get_set_same_str {V} (d : dict string V) k v :
  dict_get String.eqb (dict_set String.eqb d k v) k = Some v.
Proof.
  induction d as [|[k' v'] d IH]; simpl.
  - now rewrite String.eqb_refl.
  - destruct (String.eqb k' k) eqn:E; simpl; rewrite E; auto.
Qed.

End ClassificationFrame.

(** *** The translation crawl only ever appends to [results] and to the
    request log *)

Section TranslationFrame.
Import Translation.
Variable srv : Server.
Variable MAX_COUNT : Z.

Definition grows (st st' : State) : Prop :=
  exists more log_more,
    results st' = (results st ++ more)%list
    /\ http_log st' = (http_log st ++ log_more)%list.

Lemma grows_refl : forall s, grows s s.
Proof. intros s. exists [], []. now rewrite !app_nil_r. Qed.

Lemma grows_trans : forall a b c, grows a b -> grows b c -> grows a c.
Proof.
  intros a b c (r1 & l1 & Hr1 & Hl1) (r2 & l2 & Hr2 & Hl2).
  exists (r1 ++ r2)%list, (l1 ++ l2)%list.
  rewrite Hr2, Hr1, Hl2, Hl1, !app_assoc. auto.
Qed.

Ltac grow :=
  respects_with grows_refl grows_trans;
  try (eexists _, _; simpl; split;
       first [reflexivity | symmetry; apply app_nil_r]).

Lemma get_translations_grows page : respects grows (get_translations srv page).
Proof.
  unfold get_translations, xpath_specific_concept, requests_get,
    failed_urls_append.
  grow.
Qed.

Lemma emit_grows lbl page : respects grows (emit srv lbl page).
Proof.
  unfold emit, results_append.
  apply (@respects_bind _ grows grows_trans); [apply get_translations_grows|].
  grow.
Qed.

Lemma fetch_hierarchy_grows page : respects grows (fetch_hierarchy srv page).
Proof. unfold fetch_hierarchy, requests_get, failed_urls_append. grow. Qed.

Lemma count_visit_grows : respects grows (count_visit MAX_COUNT).
Proof. unfold count_visit, counter_increment. grow. Qed.

Lemma visit_child_grows expand depth c :
  (forall h d u p, respects grows (expand h d u p)) ->
  respects grows (visit_child srv MAX_COUNT expand depth c).
Proof.
  intros He. unfold visit_child, entry_label.
  grow; first [apply emit_grows|apply count_visit_grows
              |apply fetch_hierarchy_grows|apply He].
Qed.

Lemma visit_self_grows expand depth c :
  (forall h d u p, respects grows (expand h d u p)) ->
  respects grows (visit_self srv expand depth c).
Proof.
  intros He. unfold visit_self, entry_label.
  grow; first [apply emit_grows|apply fetch_hierarchy_grows|apply He].
Qed.

Lemma process_hierarchy_grows fuel :
  forall h d u p,
    respects grows (process_hierarchy srv MAX_COUNT fuel h d u p).
Proof.
  induction fuel as [|fuel IH]; intros h d u p; simpl.
  - apply (@respects_diverge _ grows grows_refl).
  - grow; first [apply visit_child_grows|apply visit_self_grows]; apply IH.
Qed.

(** Whatever it answers, [get_translations] issues exactly the [data]
    request and touches neither [results] nor the counter. *)
Lemma get_translations_store page st :
  results (snd (get_translations srv page st)) = results st
  /\ count (snd (get_translations srv page st)) = count st
  /\ http_log (snd (get_translations srv page st))
     = (http_log st ++ [data_url page])%list.
Proof.
  unfold get_translations, xpath_specific_concept, requests_get,
    failed_urls_append, of_outcome.
  run.
  destruct (negb _); simpl; [auto|].
  destruct (plain_page page).
  - destruct (xpath_concept _ _); simpl; auto.
  - destruct (xpath_unintended _ _ _) as [[|c l]|e|]; simpl; auto.
Qed.

(** On a plain page [get_translations] returns. *)
Lemma get_translations_plain page st :
  plain_page page = true ->
  exists t st1, get_translations srv page st = (Ok t, st1).
Proof.
  intros Hplain.
  unfold get_translations, xpath_specific_concept, requests_get,
    failed_urls_append.
  rewrite Hplain. run.
  destruct (negb _); simpl; [eauto|].
  destruct (xpath_concept _ _); eauto.
Qed.

(** When the enrichment returns, [emit] appends the entry that carries it. *)
Lemma emit_returns lbl page st t st1 :
  get_translations srv page st = (Ok t, st1) ->
  emit srv lbl page st
  = (Ok tt, mkState (count st1) (failed_urls st1)
                    (results st1 ++ [mkEntry lbl t page]) (http_log st1)).
Proof. intros H. unfold emit. now rewrite (bind_ok _ _ _ H). Qed.

(** On a plain page [emit] succeeds: it appends one entry, issues one
    request (for the [data] document) and leaves the counter alone. *)
Lemma emit_spec lbl page st :
  plain_page page = true ->
  exists t st1,
    emit srv lbl page st = (Ok tt, st1)
    /\ results st1 = (results st ++ [mkEntry lbl t page])%list
    /\ http_log st1 = (http_log st ++ [data_url page])%list
    /\ count st1 = count st.
Proof.
  intros Hplain.
  destruct (get_translations_plain page st Hplain) as (t & st1 & Ht).
  destruct (get_translations_store page st) as (Hr & Hc & Hl).
  rewrite Ht in Hr, Hc, Hl. simpl in Hr, Hc, Hl.
  exists t. eexists. split; [apply (@emit_returns lbl page st t st1 Ht)|].
  simpl. rewrite Hr, Hl, Hc. auto.
Qed.



End TranslationFrame.


(** ** Emission and the [hasChildren] flag (C4) *)




(** * Further properties of the two scripts *)

(** ** The page number of a URI *)

(** ['/' in s] *)
Fixpoint contains (c : ascii) (s : string) : bool :=
  match s with
  | EmptyString => false
  | String c' s' => Ascii.eqb c' c || contains c s'
  end.

Section Split.
Variable sep : ascii.

Lemma split_not_nil (s : string) : split sep s <> [].
Proof.
  destruct s as [|c s]; simpl; [discriminate|].
  destruct (Ascii.eqb c sep); [discriminate|].
  destruct (split sep s); discriminate.
Qed.

Lemma last_cons_not_nil {A} (x : A) (l : list A) (d : A) :
  l <> [] -> List.last (x :: l) d = List.last l d.
Proof. destruct l; [congruence|reflexivity]. Qed.

Lemma split_pieces (s : string) :
  Forall (fun w => contains sep w = false) (split sep s).
Proof.
  induction s as [|c s IH]; simpl.
  - repeat constructor.
  - destruct (Ascii.eqb c sep) eqn:E.
    + constructor; [reflexivity|exact IH].
    + destruct (split sep s) as [|w ws]; [repeat constructor; simpl; now rewrite E|].
      inversion IH as [|? ? Hw Hws]; subst.
      constructor; [simpl; now rewrite E|exact Hws].
Qed.

Lemma split_plain (s : string) : contains sep s = false -> split sep s = [s].
Proof.
  induction s as [|c s IH]; simpl; [reflexivity|].
  intros H. apply orb_false_iff in H. destruct H as [Hc Hs].
  rewrite Hc, (IH Hs). reflexivity.
Qed.

Lemma split_two (pre s : string) :
  exists w1 w2 ws, split sep (pre ++ String sep s) = w1 :: w2 :: ws.
Proof.
  induction pre as [|c pre IH]; simpl.
  - rewrite Ascii.eqb_refl.
    destruct (split sep s) as [|w ws] eqn:E; [now elim (split_not_nil s)|].
    eauto.
  - destruct IH as (w1 & w2 & ws & ->).
    destruct (Ascii.eqb c sep); eauto.
Qed.

Lemma last_split_app (pre s : string) :
  List.last (split sep (pre ++ String sep s)) "" = List.last (split sep s) "".
Proof.
  induction pre as [|c pre IH]; simpl.
  - rewrite Ascii.eqb_refl. apply last_cons_not_nil, split_not_nil.
  - destruct (Ascii.eqb c sep).
    + rewrite last_cons_not_nil by apply split_not_nil. exact IH.
    + destruct (split_two pre s) as (w1 & w2 & ws & E).
      rewrite E in *. exact IH.
Qed.

Lemma last_Forall {A} (P : A -> Prop) (l : list A) (d : A) :
  l <> [] -> Forall P l -> P (List.last l d).
Proof.
  induction l as [|x l IH]; [congruence|].
  intros _ H. inversion H as [|? ? Hx Hl]; subst.
  destruct l as [|y l]; [exact Hx|].
  apply IH; [discriminate|exact Hl].
Qed.

End Split.

(** X1: [get_page_number_from_uri] returns the last path segment.  Its
    result never contains a slash; a URI without a slash is returned whole;
    and for a page that contains no slash, whatever stands before the last
    slash is dropped. *)
Theorem get_page_number_is_last_segment :
  (forall uri : string,
      contains "/" (HornbostelSachs.get_page_number_from_uri uri) = false)
  /\ (forall page : string,
         contains "/" page = false ->
         HornbostelSachs.get_page_number_from_uri page = page)
  /\ (forall prefix page : string,
         contains "/" page = false ->
         HornbostelSachs.get_page_number_from_uri (prefix ++ "/" ++ page) = page).
Proof.
  unfold HornbostelSachs.get_page_number_from_uri. split; [|split].
  - intros uri.
    apply (@last_Forall _ (fun w => contains "/" w = false));
      [apply split_not_nil|apply split_pieces].
  - intros page H. now rewrite (split_plain _ _ H).
  - intros prefix page H. simpl.
    rewrite last_split_app. now rewrite (split_plain _ _ H).
Qed.

Lemma get_page_number_is_last_segment_witness :
  HornbostelSachs.get_page_number_from_uri
    ("http://www.mimo-db.eu/HornbostelAndSachs" ++ "/" ++ "123") = "123"
  /\ HornbostelSachs.get_page_number_from_uri "2208" = "2208".
Proof.
  split.
  - apply (proj2 (proj2 get_page_number_is_last_segment)). reflexivity.
  - apply (proj1 (proj2 get_page_number_is_last_segment)). reflexivity.
Defined.

(** X2: the translation crawl derives the page from a concept URI and
    [get_translations] rebuilds the URI from the page for its XPath query;
    for a page without a slash the two are inverse to each other. *)
Theorem page_of_concept_about :
  forall page : string,
    contains "/" page = false ->
    Translation.get_page_number_from_uri (Translation.concept_about page) = page.
Proof.
  intros page H.
  unfold Translation.get_page_number_from_uri, Translation.concept_about.
  change ("http://www.mimo-db.eu/InstrumentsKeywords/" ++ page)
    with ("http://www.mimo-db.eu/InstrumentsKeywords" ++ String "/" page).
  rewrite last_split_app. now rewrite (split_plain _ _ H).
Qed.

Lemma page_of_concept_about_witness :
  Translation.get_page_number_from_uri (Translation.concept_about "2208") = "2208".
Proof. apply page_of_concept_about. reflexivity. Defined.

(** ** The failed-URL list *)

(** Between two stores, [failed_urls] and the request log have only been
    appended to, and every URL newly recorded as failed is among the newly
    requested ones. *)
Definition audit_H (st st' : HornbostelSachs.State) : Prop :=
  exists failed requested,
    HornbostelSachs.failed_urls st' = (HornbostelSachs.failed_urls st ++ failed)%list
    /\ HornbostelSachs.http_log st' = (HornbostelSachs.http_log st ++ requested)%list
    /\ incl failed requested.

Definition audit_T (st st' : Translation.State) : Prop :=
  exists failed requested,
    Translation.failed_urls st' = (Translation.failed_urls st ++ failed)%list
    /\ Translation.http_log st' = (Translation.http_log st ++ requested)%list
    /\ incl failed requested.

Ltac audit_refl :=
  exists [], []; rewrite !app_nil_r; repeat split; apply incl_refl.

Ltac audit_trans :=
  let f1 := fresh in let l1 := fresh in let f2 := fresh in let l2 := fresh in
  let F1 := fresh in let L1 := fresh in let I1 := fresh in
  let F2 := fresh in let L2 := fresh in let I2 := fresh in
  intros ? ? ? (f1 & l1 & F1 & L1 & I1) (f2 & l2 & F2 & L2 & I2);
  exists (f1 ++ f2)%list, (l1 ++ l2)%list;
  rewrite F2, F1, L2, L1, !app_assoc; repeat split;
  apply incl_app; [apply incl_appl|apply incl_appr]; assumption.

(** The store after a step that requests [url] and records it as failed or
    not. *)
Ltac audit_request :=
  first [ solve [exists [], []; simpl; rewrite ?app_nil_r; repeat split;
                 apply incl_refl]
        | solve [eexists [], [_]; simpl; rewrite ?app_nil_r; repeat split;
                 apply incl_nil_l]
        | solve [eexists [_], [_]; simpl; repeat split; apply incl_refl] ].

Section AuditClassification.
Import HornbostelSachs.
Variable srv : Server.
Variable MAX_COUNT : Z.

Lemma audit_H_refl : forall s, audit_H s s.
Proof. intros s. audit_refl. Qed.

Lemma audit_H_trans : forall a b c, audit_H a b -> audit_H b c -> audit_H a c.
Proof. audit_trans. Qed.

Ltac audit := respects_with audit_H_refl audit_H_trans; try audit_request.

Lemma get_description_audit uri :
  respects audit_H (get_description_from_uri srv uri).
Proof. unfold get_description_from_uri, requests_get. audit. Qed.

Lemma get_instrument_names_audit page :
  respects audit_H (get_instrument_names_for_page srv page).
Proof.
  intros st.
  unfold get_instrument_names_for_page, requests_get, failed_urls_append. run.
  destruct (negb _); simpl; [|destruct (snd (mappings_doc _ _))]; audit_request.
Qed.

Lemma fetch_hierarchy_audit page : respects audit_H (fetch_hierarchy srv page).
Proof.
  intros st. unfold fetch_hierarchy, requests_get, failed_urls_append. run.
  destruct (negb _); simpl; audit_request.
Qed.

Lemma count_visit_audit : respects audit_H (count_visit MAX_COUNT).
Proof. unfold count_visit, counter_increment. audit. Qed.

Lemma visit_child_audit expand depth c :
  (forall h d u, respects audit_H (expand h d u)) ->
  respects audit_H (visit_child srv MAX_COUNT expand depth c).
Proof.
  intros He. unfold visit_child, results_setitem.
  apply (@respects_bind _ audit_H audit_H_trans); [apply get_description_audit|].
  intros d.
  apply (@respects_bind _ audit_H audit_H_trans);
    [apply get_instrument_names_audit|].
  intros names.
  audit; first [apply count_visit_audit|apply fetch_hierarchy_audit|apply He].
Qed.

Lemma process_hierarchy_audit fuel :
  forall h d u, respects audit_H (process_hierarchy srv MAX_COUNT fuel h d u).
Proof.
  induction fuel as [|fuel IH]; intros h d u; simpl.
  - apply (@respects_diverge _ audit_H audit_H_refl).
  - audit. apply visit_child_audit. apply IH.
Qed.

Lemma main_item_audit fuel item :
  respects audit_H (main_item srv MAX_COUNT fuel item).
Proof.
  unfold main_item. destruct (hasChildren item);
    [|apply (@respects_ret _ audit_H audit_H_refl)].
  apply (@respects_bind _ audit_H audit_H_trans);
    [apply get_instrument_names_audit|].
  intros names.
  apply (@respects_bind _ audit_H audit_H_trans); [apply get_description_audit|].
  intros d. unfold main_results_set.
  audit; first [apply count_visit_audit|apply fetch_hierarchy_audit
               |apply process_hierarchy_audit].
Qed.

Lemma main_audit fuel : respects audit_H (main srv MAX_COUNT fuel).
Proof.
  unfold main, requests_get.
  audit. apply main_item_audit.
Qed.

End AuditClassification.

Section AuditTranslation.
Import Translation.
Variable srv : Server.
Variable MAX_COUNT : Z.

Lemma audit_T_refl : forall s, audit_T s s.
Proof. intros s. audit_refl. Qed.

Lemma audit_T_trans : forall a b c, audit_T a b -> audit_T b c -> audit_T a c.
Proof. audit_trans. Qed.

Ltac audit := respects_with audit_T_refl audit_T_trans; try audit_request.

Lemma get_translations_audit page : respects audit_T (get_translations srv page).
Proof.
  intros st.
  unfold get_translations, xpath_specific_concept, of_outcome, requests_get,
    failed_urls_append.
  run.
  destruct (negb _); simpl; [audit_request|].
  destruct (plain_page page); simpl;
    [destruct (xpath_concept _ _)
    |destruct (xpath_unintended _ _ _) as [[|? ?]| |]];
    audit_request.
Qed.

Lemma emit_audit lbl page : respects audit_T (emit srv lbl page).
Proof.
  unfold emit, results_append.
  apply (@respects_bind _ audit_T audit_T_trans); [apply get_translations_audit|].
  audit.
Qed.

Lemma fetch_hierarchy_audit_T page : respects audit_T (fetch_hierarchy srv page).
Proof.
  intros st. unfold fetch_hierarchy, requests_get, failed_urls_append. run.
  destruct (negb _); simpl; audit_request.
Qed.

Lemma count_visit_audit_T : respects audit_T (count_visit MAX_COUNT).
Proof. unfold count_visit, counter_increment. audit. Qed.

Lemma visit_child_audit_T expand depth c :
  (forall h d u p, respects audit_T (expand h d u p)) ->
  respects audit_T (visit_child srv MAX_COUNT expand depth c).
Proof.
  intros He. unfold visit_child, entry_label.
  audit; first [apply emit_audit|apply count_visit_audit_T
               |apply fetch_hierarchy_audit_T|apply He].
Qed.

Lemma visit_self_audit_T expand depth c :
  (forall h d u p, respects audit_T (expand h d u p)) ->
  respects audit_T (visit_self srv expand depth c).
Proof.
  intros He. unfold visit_self, entry_label.
  audit; first [apply emit_audit|apply fetch_hierarchy_audit_T|apply He].
Qed.

Lemma process_hierarchy_audit_T fuel :
  forall h d u p,
    respects audit_T (process_hierarchy srv MAX_COUNT fuel h d u p).
Proof.
  induction fuel as [|fuel IH]; intros h d u p; simpl.
  - apply (@respects_diverge _ audit_T audit_T_refl).
  - audit; first [apply visit_child_audit_T|apply visit_self_audit_T]; apply IH.
Qed.

Lemma main_item_audit_T fuel h bt i :
  respects audit_T (main_item srv MAX_COUNT fuel h bt i).
Proof.
  unfold main_item.
  audit; first [apply emit_audit|apply process_hierarchy_audit_T].
Qed.

Lemma main_audit_T fuel : respects audit_T (main srv MAX_COUNT fuel).
Proof.
  unfold main.
  apply (@respects_bind _ audit_T audit_T_trans);
    [apply fetch_hierarchy_audit_T|].
  intros h. audit. apply main_item_audit_T.
Qed.

End AuditTranslation.

(** X3: in a run of the classification crawl, from any store and with any
    outcome (return, exception, or fuel exhausted), [failed_urls] is only
    appended to, and every URL appended to it was requested during the run.
    From the initial store, every failed URL is therefore a requested one. *)
Theorem classification_failed_urls_were_requested :
  forall (srv : HornbostelSachs.Server) (MAX_COUNT : Z) (fuel : nat)
         (st : HornbostelSachs.State),
    let st' := snd (HornbostelSachs.main srv MAX_COUNT fuel st) in
    (exists failed requested,
        HornbostelSachs.failed_urls st'
        = (HornbostelSachs.failed_urls st ++ failed)%list
        /\ HornbostelSachs.http_log st'
           = (HornbostelSachs.http_log st ++ requested)%list
        /\ incl failed requested)
    /\ incl (HornbostelSachs.failed_urls
               (snd (HornbostelSachs.main srv MAX_COUNT fuel HornbostelSachs.initial)))
            (HornbostelSachs.http_log
               (snd (HornbostelSachs.main srv MAX_COUNT fuel HornbostelSachs.initial))).
Proof.
  intros srv MAX_COUNT fuel st st'. split.
  - apply (main_audit srv MAX_COUNT fuel st).
  - destruct (main_audit srv MAX_COUNT fuel HornbostelSachs.initial)
      as (f & l & -> & -> & H).
    exact H.
Qed.

(** X4: the same for the translation crawl. *)
Theorem translation_failed_urls_were_requested :
  forall (srv : Translation.Server) (MAX_COUNT : Z) (fuel : nat)
         (st : Translation.State),
    let st' := snd (Translation.main srv MAX_COUNT fuel st) in
    (exists failed requested,
        Translation.failed_urls st' = (Translation.failed_urls st ++ failed)%list
        /\ Translation.http_log st' = (Translation.http_log st ++ requested)%list
        /\ incl failed requested)
    /\ incl (Translation.failed_urls
               (snd (Translation.main srv MAX_COUNT fuel Translation.initial)))
            (Translation.http_log
               (snd (Translation.main srv MAX_COUNT fuel Translation.initial))).
Proof.
  intros srv MAX_COUNT fuel st st'. split.
  - apply (main_audit_T srv MAX_COUNT fuel st).
  - destruct (main_audit_T srv MAX_COUNT fuel Translation.initial)
      as (f & l & -> & -> & H).
    exact H.
Qed.

(** ** Narrower children in the classification crawl *)

(** X5: in the classification crawl no step of the loop over [narrower]
    ends normally.  Whatever the service answers, [visit_child] raises, and
    it leaves the output mapping of [main] and the module-level [results] as
    they were; when the details page of the child answers 200 with candidate
    texts, the exception is the [TypeError] of the assignment
    [results[child_notation] = ...] to the module-level list. *)
Theorem classification_visit_child_raises :
  forall (srv : HornbostelSachs.Server) (MAX_COUNT : Z)
         (expand : option HornbostelSachs.Hierarchy -> nat -> option string
                   -> M HornbostelSachs.State unit)
         (depth : nat) (c : HornbostelSachs.Concept) (st : HornbostelSachs.State),
    exists e st',
      HornbostelSachs.visit_child srv MAX_COUNT expand depth c st = (Raise e, st')
      /\ HornbostelSachs.main_results st' = HornbostelSachs.main_results st
      /\ HornbostelSachs.results st' = HornbostelSachs.results st
      /\ (forall texts,
             HornbostelSachs.details_page srv (HornbostelSachs.uri c) = (200, texts) ->
             texts <> [] -> e = TypeError).
Proof.
  intros srv MAX_COUNT expand depth c st.
  unfold HornbostelSachs.visit_child.
  unfold HornbostelSachs.get_description_from_uri at 1.
  unfold HornbostelSachs.get_instrument_names_for_page,
    HornbostelSachs.results_setitem, HornbostelSachs.requests_get,
    HornbostelSachs.failed_urls_append.
  run.
  destruct (HornbostelSachs.details_page srv (HornbostelSachs.uri c))
    as [status li_texts] eqn:Hpage. simpl.
  destruct (status =? 200) eqn:Hs.
  - destruct (item_last (sorted Nat.ltb String.length li_texts)) as [d|] eqn:Hl.
    + simpl. destruct (negb _); simpl; [|destruct (snd (HornbostelSachs.mappings_doc _ _))];
        eexists _, _; repeat split.
    + eexists _, _. repeat split. intros texts [= _ <-] Hne.
      destruct (item_last_sorted String.length Hne) as (? & ? & ? & H & _).
      congruence.
  - eexists _, _. repeat split. intros texts [= -> _] _. discriminate.
Qed.

(** ** The output of the classification crawl *)

(** An invariant of the store that every step of a loop keeps holds after
    the loop, however the loop ends. *)
Lemma for_each_invariant {S A} (P : S -> Prop) (body : A -> M S flow) (l : list A) :
  (forall x s, In x l -> P s -> P (snd (body x s))) ->
  forall s, P s -> P (snd (for_each body l s)).
Proof.
  induction l as [|x l IH]; intros Hb s Hs; simpl; [exact Hs|].
  assert (Hx := Hb x s (or_introl eq_refl) Hs).
  destruct (body x s) as [[[|]|e|] s']; simpl in *; try exact Hx.
  apply IH; [|exact Hx]. intros y t Hy. apply Hb. now right.
Qed.

Lemma dict_set_In {V} (d : dict string V) k v k' v' :
  In (k', v') (dict_set String.eqb d k v) -> In (k', v') d \/ (k' = k /\ v' = v).
Proof.
  induction d as [|[k0 v0] d IH]; simpl.
  - intros [[= <- <-]|[]]. auto.
  - destruct (String.eqb k0 k) eqn:E; simpl.
    + apply String.eqb_eq in E. subst k0.
      intros [[= <- <-]|H]; auto.
    + intros [H|H]; [auto|]. destruct (IH H); auto.
Qed.

Lemma dict_set_keys {V} (d : dict string V) k v :
  map fst (dict_set String.eqb d k v) = map fst d
  \/ (~ In k (map fst d)
      /\ map fst (dict_set String.eqb d k v) = (map fst d ++ [k])%list).
Proof.
  induction d as [|[k0 v0] d IH]; simpl.
  - right. auto.
  - destruct (String.eqb k0 k) eqn:E; simpl; [now left|].
    apply String.eqb_neq in E.
    destruct IH as [->|[Hn ->]]; [now left|].
    right. split; [|reflexivity]. intros [H|H]; auto.
Qed.

Lemma dict_set_NoDup {V} (d : dict string V) k v :
  NoDup (map fst d) -> NoDup (map fst (dict_set String.eqb d k v)).
Proof.
  intros H. destruct (dict_set_keys d k v) as [->|[Hn ->]]; [exact H|].
  apply NoDup_app; [exact H|repeat constructor; intros []|].
  intros x Hx [<-|[]]. exact (Hn Hx).
Qed.

(** [sort_results] on a mapping with distinct keys: the plain sort. *)
Lemma sort_results_nodup (results : dict string HornbostelSachs.Entry) :
  NoDup (map fst results) ->
  HornbostelSachs.sort_results results = Ok (sorted String.ltb fst results).
Proof.
  intros Hnd. unfold HornbostelSachs.sort_results.
  set (ks := sorted String.ltb (fun k : string => k) (map fst results)).
  set (pos := fun x : string * HornbostelSachs.Entry =>
                match index (fst x) ks with Some n => n | None => 0%nat end).
  assert (Hpos : forall x, In x results -> index (fst x) ks = Some (pos x)).
  { intros x Hx. unfold pos.
    destruct (index_In (fst x) ks) as (n & ->); [|reflexivity].
    apply sorted_In_iff. now apply in_map. }
  rewrite (decorate_total pos _ results Hpos).
  rewrite (sorted_decorated Nat.ltb pos results).
  rewrite (sorted_ext Nat.ltb pos String.ltb fst results).
  - rewrite dict_of_items_nodup; [reflexivity|].
    eapply Permutation_NoDup; [|exact Hnd].
    apply Permutation_map, sorted_perm.
  - intros x y Hx Hy.
    apply (index_sorted (l := ks)); [|now apply Hpos|now apply Hpos].
    apply (sorted_sorted String.ltb (fun k : string => k)).
    + apply string_ltb_asym.
    + apply string_le_trans.
Qed.

Section ClassificationOutput.
Import HornbostelSachs.
Variable srv : Server.
Variable MAX_COUNT : Z.

(** What one turn of the loop of [main] does to the output mapping: nothing,
    or one assignment under the notation of the item. *)
Lemma main_item_results fuel item st :
  main_results (snd (main_item srv MAX_COUNT fuel item st)) = main_results st
  \/ (hasChildren item = true
      /\ exists names d,
          main_results (snd (main_item srv MAX_COUNT fuel item st))
          = dict_set String.eqb (main_results st) (notation item)
              (mkEntry (label item) names d (get_page_number_from_uri (uri item)))).
Proof.
  unfold main_item. destruct (hasChildren item); [|now left].
  set (page := get_page_number_from_uri (uri item)).
  destruct (get_instrument_names_spec srv page st) as (names & st1 & Hn & Hm1 & _).
  rewrite (bind_ok _ _ _ Hn).
  assert (Hd := get_description_frame srv (uri item) st1).
  destruct (get_description_from_uri srv (uri item) st1) as [[d|e|] st2] eqn:Ed;
    destruct Hd as [Hm2 _]; simpl in Hm2.
  - rewrite (bind_ok _ _ _ Ed).
    set (entry := mkEntry (label item) names d page).
    set (st3 := mkState (count st2) (failed_urls st2) (results st2)
                        (dict_set String.eqb (main_results st2) (notation item) entry)
                        (http_log st2)).
    assert (Hset : main_results_set (notation item) entry st2 = (Ok tt, st3))
      by reflexivity.
    rewrite (bind_ok _ _ _ Hset).
    right. split; [reflexivity|]. exists names, d.
    match goal with
    | |- main_results (snd (?m st3)) = _ =>
        assert (Hrest : respects same_main_results m)
    end.
    { respects_with same_refl same_trans;
        first [apply count_visit_frame|apply fetch_hierarchy_frame
              |apply process_hierarchy_frame]. }
    destruct (Hrest st3) as [-> _]. simpl. now rewrite Hm2, Hm1.
  - left. rewrite (bind_raise _ _ _ Ed). simpl. congruence.
  - left. unfold bind. rewrite Ed. simpl. congruence.
Qed.

(** Every item of the output mapping was put there for a top-level concept
    with children, and the keys of the mapping are distinct. *)
Definition from_top_concepts (st : State) : Prop :=
  NoDup (map fst (main_results st))
  /\ forall k v,
      In (k, v) (main_results st) ->
      exists item,
        In item (snd (topconcepts_doc srv))
        /\ hasChildren item = true
        /\ notation item = k
        /\ Label v = label item
        /\ MIMOPage v = get_page_number_from_uri (uri item).

Lemma main_item_from_top_concepts fuel item st :
  In item (snd (topconcepts_doc srv)) ->
  from_top_concepts st ->
  from_top_concepts (snd (main_item srv MAX_COUNT fuel item st)).
Proof.
  intros Hitem [Hnd Hall].
  destruct (main_item_results fuel item st) as [E|(Hc & names & d & E)];
    unfold from_top_concepts; rewrite E; [now split|].
  split; [now apply dict_set_NoDup|].
  intros k v Hin. apply dict_set_In in Hin.
  destruct Hin as [Hin|[-> ->]]; [now apply Hall|].
  exists item. repeat split; assumption.
Qed.

Lemma main_output fuel st d st' :
  from_top_concepts st ->
  main srv MAX_COUNT fuel st = (Ok d, st') ->
  from_top_concepts st' /\ d = sorted String.ltb fst (main_results st').
Proof.
  intros Hst. unfold main.
  set (st0 := mkState (count st) (failed_urls st) (results st) (main_results st)
                      (http_log st ++ [topconcepts_url])).
  assert (Hreq : requests_get topconcepts_url st = (Ok tt, st0)) by reflexivity.
  rewrite (bind_ok _ _ _ Hreq).
  assert (H0 : from_top_concepts st0) by exact Hst.
  assert (Hloop := for_each_invariant from_top_concepts
                     (main_item srv MAX_COUNT fuel) (snd (topconcepts_doc srv))
                     (fun x s Hx Hs => @main_item_from_top_concepts fuel x s Hx Hs)
                     st0 H0).
  unfold bind at 1.
  destruct (for_each _ _ st0) as [[[]|e|] st1]; simpl in Hloop; try discriminate.
  unfold bind, get. rewrite (@sort_results_nodup _ (proj1 Hloop)).
  intros [= <- <-]. split; [exact Hloop|reflexivity].
Qed.

End ClassificationOutput.

(** X6: whatever the service answers, when the classification crawl started
    from the initial store returns an output mapping, every entry of that
    mapping belongs to a top-level concept that has children: its key is the
    notation of the concept, its label and page are those of the concept.
    No narrower concept ever reaches the output. *)
Theorem classification_output_is_top_level :
  forall (srv : HornbostelSachs.Server) (MAX_COUNT : Z) (fuel : nat)
         (d : dict string HornbostelSachs.Entry) (st' : HornbostelSachs.State),
    HornbostelSachs.main srv MAX_COUNT fuel HornbostelSachs.initial = (Ok d, st') ->
    forall k v,
      In (k, v) d ->
      exists item,
        In item (snd (HornbostelSachs.topconcepts_doc srv))
        /\ HornbostelSachs.hasChildren item = true
        /\ HornbostelSachs.notation item = k
        /\ HornbostelSachs.Label v = HornbostelSachs.label item
        /\ HornbostelSachs.MIMOPage v
           = HornbostelSachs.get_page_number_from_uri (HornbostelSachs.uri item).
Proof.
  intros srv MAX_COUNT fuel d st' Hmain k v Hin.
  assert (Hinit : from_top_concepts srv HornbostelSachs.initial).
  { split; [constructor|intros ? ? []]. }
  destruct (@main_output _ _ _ _ _ _ Hinit Hmain) as [[_ Hall] ->].
  apply Hall. now apply sorted_In_iff in Hin.
Qed.

Lemma classification_output_is_top_level_witness :
  let v := HornbostelSachs.mkEntry "Drums" [] "struck directly" "123" in
  exists item,
    In item (snd (HornbostelSachs.topconcepts_doc (Scenario.classification 200 200 true)))
    /\ HornbostelSachs.hasChildren item = true
    /\ HornbostelSachs.notation item = "211"
    /\ HornbostelSachs.Label v = HornbostelSachs.label item
    /\ HornbostelSachs.MIMOPage v
       = HornbostelSachs.get_page_number_from_uri (HornbostelSachs.uri item).
Proof.
  intros v.
  apply (@classification_output_is_top_level
           (Scenario.classification 200 200 true) (-1) 5%nat [("211", v)]
           (snd (HornbostelSachs.main (Scenario.classification 200 200 true) (-1) 5
                                      HornbostelSachs.initial))).
  - vm_compute. reflexivity.
  - left. reflexivity.
Defined.

(** X7: whenever the classification crawl returns an output mapping, its
    keys ascend strictly in the default ordering of strings (so they are
    pairwise distinct), and it holds exactly the items gathered by [main]. *)
Theorem classification_output_is_sorted :
  forall (srv : HornbostelSachs.Server) (MAX_COUNT : Z) (fuel : nat)
         (d : dict string HornbostelSachs.Entry) (st' : HornbostelSachs.State),
    HornbostelSachs.main srv MAX_COUNT fuel HornbostelSachs.initial = (Ok d, st') ->
    StronglySorted (fun a b => String.ltb (fst a) (fst b) = true) d
    /\ Permutation (HornbostelSachs.main_results st') d.
Proof.
  intros srv MAX_COUNT fuel d st' Hmain.
  assert (Hinit : from_top_concepts srv HornbostelSachs.initial).
  { split; [constructor|intros ? ? []]. }
  destruct (@main_output _ _ _ _ _ _ Hinit Hmain) as [[Hnd _] ->].
  split; [|apply sorted_perm].
  apply sorted_strict.
  - apply (sorted_sorted String.ltb (@fst string HornbostelSachs.Entry)).
    + apply string_ltb_asym.
    + apply string_le_trans.
  - eapply Permutation_NoDup; [|exact Hnd].
    apply Permutation_map, sorted_perm.
Qed.

(** A service that lists three top-level concepts, all with children, in
    the order 3, 1, 2 of their notations. *)
Definition families : HornbostelSachs.Server :=
  HornbostelSachs.mkServer
    (fun _ => (200, ["struck directly"; "drum"]))
    (fun _ => (200, None))
    (fun _ => (200, HornbostelSachs.mkHierarchy (Some [])))
    (200,
     [HornbostelSachs.mkConcept "http://www.mimo-db.eu/HornbostelAndSachs/30"
                                "Chordophones" "3" true;
      HornbostelSachs.mkConcept "http://www.mimo-db.eu/HornbostelAndSachs/10"
                                "Idiophones" "1" true;
      HornbostelSachs.mkConcept "http://www.mimo-db.eu/HornbostelAndSachs/20"
                                "Membranophones" "2" true]).

Definition family (l page : string) : HornbostelSachs.Entry :=
  HornbostelSachs.mkEntry l [] "struck directly" page.

(** The three concepts are gathered in the order of the service and
    returned in the order of their notations. *)
Lemma classification_output_is_sorted_witness :
  map fst (HornbostelSachs.main_results
             (snd (HornbostelSachs.main families (-1) 5 HornbostelSachs.initial)))
  = ["3"; "1"; "2"]
  /\ StronglySorted (fun a b => String.ltb (fst a) (fst b) = true)
       [("1", family "Idiophones" "10"); ("2", family "Membranophones" "20");
        ("3", family "Chordophones" "30")]
  /\ Permutation
       (HornbostelSachs.main_results
          (snd (HornbostelSachs.main families (-1) 5 HornbostelSachs.initial)))
       [("1", family "Idiophones" "10"); ("2", family "Membranophones" "20");
        ("3", family "Chordophones" "30")].
Proof.
  split; [vm_compute; reflexivity|].
  apply (@classification_output_is_sorted families (-1) 5%nat).
  vm_compute. reflexivity.
Defined.

(** ** A failed mappings request *)

Lemma audit_H_In (a b : HornbostelSachs.State) (u : string) :
  audit_H a b ->
  In u (HornbostelSachs.failed_urls a) -> In u (HornbostelSachs.failed_urls b).
Proof.
  intros (f & l & -> & _) H. apply in_or_app. now left.
Qed.

(** X8: a failed mappings request does not cost the concept its entry.  For
    a top-level concept with children whose details page answers 200 with
    candidate texts, but whose mappings request answers with a status other
    than 200, one turn of the loop of [main] stores the entry under the
    notation of the concept, with an empty list of instruments, and the
    mappings URL is in the failed-URL list afterwards. *)
Theorem classification_mappings_failure_is_survived :
  forall (srv : HornbostelSachs.Server) (MAX_COUNT : Z) (fuel : nat)
         (item : HornbostelSachs.Concept) (st : HornbostelSachs.State)
         (texts : list string),
    let page := HornbostelSachs.get_page_number_from_uri (HornbostelSachs.uri item) in
    let r := HornbostelSachs.main_item srv MAX_COUNT fuel item st in
    HornbostelSachs.hasChildren item = true ->
    HornbostelSachs.details_page srv (HornbostelSachs.uri item) = (200, texts) ->
    texts <> [] ->
    fst (HornbostelSachs.mappings_doc srv (HornbostelSachs.mappings_url page)) <> 200 ->
    exists d,
      In d texts
      /\ dict_get String.eqb (HornbostelSachs.main_results (snd r))
                  (HornbostelSachs.notation item)
         = Some (HornbostelSachs.mkEntry (HornbostelSachs.label item) [] d page)
      /\ In (HornbostelSachs.mappings_url page) (HornbostelSachs.failed_urls (snd r)).
Proof.
  intros srv MAX_COUNT fuel item st texts page r Hc Hpage Hne Hmap. subst r.
  unfold HornbostelSachs.main_item. rewrite Hc. fold page.
  set (url := HornbostelSachs.mappings_url page) in *.
  set (st1 := HornbostelSachs.mkState (HornbostelSachs.count st)
                (HornbostelSachs.failed_urls st ++ [url])
                (HornbostelSachs.results st) (HornbostelSachs.main_results st)
                (HornbostelSachs.http_log st ++ [url])).
  assert (Hn : HornbostelSachs.get_instrument_names_for_page srv page st
               = (Ok [], st1)).
  { unfold HornbostelSachs.get_instrument_names_for_page,
      HornbostelSachs.requests_get, HornbostelSachs.failed_urls_append.
    run. fold url. apply Z.eqb_neq in Hmap. now rewrite Hmap. }
  rewrite (bind_ok _ _ _ Hn).
  destruct (get_description_spec srv (HornbostelSachs.uri item) st1 Hpage Hne)
    as (d & st2 & Hd & Hin & Hm2 & _).
  assert (Ha2 := get_description_audit srv (HornbostelSachs.uri item) st1).
  rewrite Hd in Ha2. simpl in Ha2.
  rewrite (bind_ok _ _ _ Hd).
  exists d. split; [exact Hin|].
  set (entry := HornbostelSachs.mkEntry _ _ _ _).
  set (st3 := HornbostelSachs.mkState (HornbostelSachs.count st2)
                (HornbostelSachs.failed_urls st2) (HornbostelSachs.results st2)
                (dict_set String.eqb (HornbostelSachs.main_results st2)
                          (HornbostelSachs.notation item) entry)
                (HornbostelSachs.http_log st2)).
  assert (Hset : HornbostelSachs.main_results_set
                   (HornbostelSachs.notation item) entry st2 = (Ok tt, st3))
    by reflexivity.
  rewrite (bind_ok _ _ _ Hset).
  match goal with
  | |- context [snd (?m st3)] =>
      assert (Hframe : respects same_main_results m);
      [|assert (Haudit : respects audit_H m)]
  end.
  { respects_with same_refl same_trans;
      first [apply count_visit_frame|apply fetch_hierarchy_frame
            |apply process_hierarchy_frame]. }
  { respects_with audit_H_refl audit_H_trans;
      first [apply count_visit_audit|apply fetch_hierarchy_audit
            |apply process_hierarchy_audit]. }
  split.
  - destruct (Hframe st3) as [-> _]. simpl. apply dict_get_set_same_str.
  - eapply audit_H_In; [apply (Haudit st3)|]. simpl.
    eapply audit_H_In; [exact Ha2|]. simpl. apply in_or_app. right. now left.
Qed.

Lemma classification_mappings_failure_is_survived_witness :
  exists d,
    In d ["struck directly"; "drum"]
    /\ dict_get String.eqb
         (HornbostelSachs.main_results
            (snd (HornbostelSachs.main_item (Scenario.classification 200 404 true)
                    (-1) 5 (Scenario.drums true) HornbostelSachs.initial)))
         "211"
       = Some (HornbostelSachs.mkEntry "Drums" [] d "123")
    /\ In (HornbostelSachs.mappings_url "123")
          (HornbostelSachs.failed_urls
             (snd (HornbostelSachs.main_item (Scenario.classification 200 404 true)
                     (-1) 5 (Scenario.drums true) HornbostelSachs.initial))).
Proof.
  apply (@classification_mappings_failure_is_survived
           (Scenario.classification 200 404 true) (-1) 5%nat (Scenario.drums true)
           HornbostelSachs.initial ["struck directly"; "drum"]).
  - reflexivity.
  - reflexivity.
  - discriminate.
  - simpl. lia.
Defined.

(** ** Translations that cannot be fetched *)

Lemma audit_T_In (a b : Translation.State) (u : string) :
  audit_T a b ->
  In u (Translation.failed_urls a) -> In u (Translation.failed_urls b).
Proof.
  intros (f & l & -> & _) H. apply in_or_app. now left.
Qed.

(** X9: in the translation crawl a narrower child whose [data] request
    answers with a status other than 200 is emitted all the same: its entry
    is appended to [results] with [None] for its translations, and the URL
    of the request is in the failed-URL list afterwards. *)
Theorem translation_failed_enrichment_is_emitted :
  forall (srv : Translation.Server) (MAX_COUNT : Z) (fuel depth : nat)
         (c : Translation.Child) (lbl : string) (st : Translation.State),
    let page := Translation.get_page_number_from_uri (Translation.uri c) in
    let r := Translation.visit_child srv MAX_COUNT
               (Translation.process_hierarchy srv MAX_COUNT fuel) depth c st in
    Translation.label_of c = Some lbl ->
    fst (Translation.data_doc srv (Translation.data_url page)) <> 200 ->
    (exists more,
        Translation.results (snd r)
        = (Translation.results st ++ Translation.mkEntry lbl None page :: more)%list)
    /\ In (Translation.data_url page) (Translation.failed_urls (snd r)).
Proof.
  intros srv MAX_COUNT fuel depth c lbl st page r Hlbl Hdata. subst r.
  unfold Translation.visit_child, Translation.entry_label. rewrite Hlbl.
  fold page.
  rewrite (@bind_ok _ _ _ (ret lbl) _ st lbl st eq_refl).
  set (url := Translation.data_url page) in *.
  set (st1 := Translation.mkState (Translation.count st)
                (Translation.failed_urls st ++ [url])
                (Translation.results st ++ [Translation.mkEntry lbl None page])
                (Translation.http_log st ++ [url])).
  assert (He : Translation.emit srv lbl page st = (Ok tt, st1)).
  { unfold Translation.emit, Translation.get_translations,
      Translation.results_append, Translation.requests_get,
      Translation.failed_urls_append.
    run. fold url. apply Z.eqb_neq in Hdata. now rewrite Hdata. }
  rewrite (bind_ok _ _ _ He).
  match goal with
  | |- context [snd (?m st1)] =>
      assert (Hgrows : respects grows m); [|assert (Haudit : respects audit_T m)]
  end.
  { respects_with grows_refl grows_trans;
      first [apply count_visit_grows|apply fetch_hierarchy_grows
            |apply process_hierarchy_grows]. }
  { respects_with audit_T_refl audit_T_trans;
      first [apply count_visit_audit_T|apply fetch_hierarchy_audit_T
            |apply process_hierarchy_audit_T]. }
  split.
  - destruct (Hgrows st1) as (more & _ & -> & _). exists more.
    simpl. now rewrite <- app_assoc.
  - eapply audit_T_In; [apply (Haudit st1)|]. simpl.
    apply in_or_app. right. now left.
Qed.

Lemma translation_failed_enrichment_is_emitted_witness :
  (exists more,
      Translation.results
        (snd (Translation.visit_child
                (Translation.mkServer (fun _ => (503, Scenario.no_concept))
                                      (fun _ => (200, Translation.mkHierarchy None)) Scenario.engine)
                (-1)
                (Translation.process_hierarchy
                   (Translation.mkServer (fun _ => (503, Scenario.no_concept))
                                         (fun _ => (200, Translation.mkHierarchy None)) Scenario.engine)
                   (-1) 3)
                0 (Scenario.child "3" "Bells" false) Translation.initial))
      = (Translation.results Translation.initial
           ++ Translation.mkEntry "Bells" None "3" :: more)%list)
  /\ In (Translation.data_url "3")
        (Translation.failed_urls
           (snd (Translation.visit_child
                   (Translation.mkServer (fun _ => (503, Scenario.no_concept))
                                         (fun _ => (200, Translation.mkHierarchy None)) Scenario.engine)
                   (-1)
                   (Translation.process_hierarchy
                      (Translation.mkServer (fun _ => (503, Scenario.no_concept))
                                            (fun _ => (200, Translation.mkHierarchy None)) Scenario.engine)
                      (-1) 3)
                   0 (Scenario.child "3" "Bells" false) Translation.initial))).
Proof.
  apply (@translation_failed_enrichment_is_emitted
           (Translation.mkServer (fun _ => (503, Scenario.no_concept))
                                 (fun _ => (200, Translation.mkHierarchy None)) Scenario.engine)
           (-1) 3%nat 0%nat (Scenario.child "3" "Bells" false) "Bells"
           Translation.initial).
  - reflexivity.
  - simpl. lia.
Defined.

(** ** The keys of a translations mapping *)

Section DictKeys.
Context {K V : Type} (eqb : K -> K -> bool).
Hypothesis eqb_eq : forall a b, eqb a b = true <-> a = b.

Lemma dict_set_keys_gen (d : dict K V) k v :
  map fst (dict_set eqb d k v) = map fst d
  \/ (~ In k (map fst d)
      /\ map fst (dict_set eqb d k v) = (map fst d ++ [k])%list).
Proof.
  induction d as [|[k0 v0] d IH]; simpl.
  - right. auto.
  - destruct (eqb k0 k) eqn:E; simpl; [now left|].
    assert (k0 <> k) by (intros ->; rewrite (proj2 (eqb_eq k k) eq_refl) in E;
                         discriminate).
    destruct IH as [->|[Hn ->]]; [now left|].
    right. split; [|reflexivity]. intros [H'|H']; auto.
Qed.

Lemma dict_set_NoDup_gen (d : dict K V) k v :
  NoDup (map fst d) -> NoDup (map fst (dict_set eqb d k v)).
Proof.
  intros H. destruct (dict_set_keys_gen d k v) as [->|[Hn ->]]; [exact H|].
  apply NoDup_app; [exact H|repeat constructor; intros []|].
  intros x Hx [<-|[]]. exact (Hn Hx).
Qed.

End DictKeys.

Lemma collect_labels_NoDup (labels : list Translation.element) :
  NoDup (map fst (Translation.collect_labels labels)).
Proof.
  unfold Translation.collect_labels.
  assert (H : forall acc : Translation.translations,
             NoDup (map fst acc) ->
             NoDup (map fst
                      (fold_left
                         (fun translations label =>
                            dict_set (option_eqb String.eqb) translations
                              (dict_get String.eqb (Translation.attrib label)
                                        Translation.XML_LANG)
                              (Translation.text label)) labels acc))).
  { induction labels as [|x labels IH]; intros acc Hacc; simpl; [exact Hacc|].
    apply IH. apply (dict_set_NoDup_gen _ option_eqb_eq). exact Hacc. }
  apply H. constructor.
Qed.

(** X10: the mapping returned by [get_translations] never lists a language
    tag twice: a tag met again overwrites the text stored under it. *)
Theorem get_translations_keys_distinct :
  forall (srv : Translation.Server) (page : string) (st st' : Translation.State)
         (t : Translation.translations),
    Translation.get_translations srv page st = (Ok (Some t), st') ->
    NoDup (map fst t).
Proof.
  intros srv page st st' t.
  unfold Translation.get_translations, Translation.xpath_specific_concept,
    of_outcome, Translation.requests_get, Translation.failed_urls_append.
  run. destruct (negb _); simpl; [discriminate|].
  destruct (Translation.plain_page page); simpl;
    [destruct (Translation.xpath_concept _ _)
    |destruct (Translation.xpath_unintended _ _ _) as [[|? ?]| |]];
    try discriminate; intros [= <- _];
    first [constructor|apply collect_labels_NoDup].
Qed.

Lemma get_translations_keys_distinct_witness :
  NoDup (map fst [(Some "en", Some "Flute"); (Some "de", Some Scenario.floete)]).
Proof.
  apply (@get_translations_keys_distinct Scenario.flute_service "12"
           Translation.initial
           (snd (Translation.get_translations Scenario.flute_service "12"
                   Translation.initial))).
  vm_compute. reflexivity.
Defined.

(** ** The counter of the translation crawl *)

Section Counter.
Import Translation.
Variable srv : Server.
Variable MAX_COUNT : Z.

(** Between two stores: entries were appended, the counter went up by at
    most the number of entries appended, and not at all when the cap is
    switched off. *)
Definition counted (st st' : State) : Prop :=
  exists more n,
    results st' = (results st ++ more)%list
    /\ count st' = count st + n
    /\ 0 <= n <= Z.of_nat (List.length more)
    /\ (MAX_COUNT = -1 -> n = 0).

Lemma counted_refl : forall s, counted s s.
Proof.
  intros s. exists [], 0. rewrite app_nil_r. simpl. repeat split; lia.
Qed.

Lemma counted_trans : forall a b c, counted a b -> counted b c -> counted a c.
Proof.
  intros a b c (m1 & n1 & R1 & C1 & B1 & Z1) (m2 & n2 & R2 & C2 & B2 & Z2).
  exists (m1 ++ m2)%list, (n1 + n2).
  rewrite R2, R1, C2, C1, length_app, Nat2Z.inj_add.
  split; [now rewrite app_assoc|].
  repeat split; lia.
Qed.

Ltac count_steps :=
  respects_with counted_refl counted_trans;
  try (exists [], 0; simpl; rewrite ?app_nil_r; repeat split; lia).

Lemma get_translations_counted page : respects counted (get_translations srv page).
Proof.
  unfold get_translations, xpath_specific_concept, requests_get,
    failed_urls_append.
  count_steps.
Qed.

Lemma fetch_hierarchy_counted page : respects counted (fetch_hierarchy srv page).
Proof. unfold fetch_hierarchy, requests_get, failed_urls_append. count_steps. Qed.

Lemma emit_counted lbl page : respects counted (emit srv lbl page).
Proof.
  unfold emit, results_append.
  apply (@respects_bind _ counted counted_trans); [apply get_translations_counted|].
  intros t. apply respects_modify. intros s.
  exists [mkEntry lbl t page], 0. simpl. repeat split; lia.
Qed.

(** An emission followed by the counting of lines 107-111 keeps the
    relation, though the counting alone does not. *)
Lemma emit_then_count {A} lbl page (k : flow -> M State A) :
  (forall f, respects counted (k f)) ->
  respects counted (bind (emit srv lbl page) (fun _ => bind (count_visit MAX_COUNT) k)).
Proof.
  intros Hk st.
  destruct (get_translations_store srv page st) as (Hr0 & Hc0 & _).
  destruct (get_translations srv page st) as [[t|e|] st0] eqn:Ht;
    simpl in Hr0, Hc0.
  - rewrite (bind_ok _ _ _ (@emit_returns srv lbl page st t st0 Ht)).
    set (st1 := mkState (count st0) (failed_urls st0)
                  (results st0 ++ [mkEntry lbl t page]) (http_log st0)).
    assert (Hr1 : results st1 = (results st ++ [mkEntry lbl t page])%list)
      by (simpl; now rewrite Hr0).
    assert (Hc1 : count st1 = count st) by exact Hc0.
    unfold count_visit, counter_increment. run.
    destruct (MAX_COUNT =? -1) eqn:E; simpl.
    + apply counted_trans with st1; [|apply Hk].
      exists [mkEntry lbl t page], 0. simpl. repeat split; try lia. exact Hr1.
    + apply Z.eqb_neq in E.
      set (st2 := mkState (count st0 + 1) (failed_urls st0)
                    (results st0 ++ [mkEntry lbl t page]) (http_log st0)).
      assert (H12 : counted st st2).
      { exists [mkEntry lbl t page], 1. simpl. repeat split; try lia.
        now rewrite Hr0. }
      destruct (MAX_COUNT <=? count st0 + 1); simpl;
        (apply counted_trans with st2; [exact H12|apply Hk]).
  - unfold emit, bind. rewrite Ht. simpl.
    exists [], 0. rewrite app_nil_r. simpl. repeat split; lia || auto.
  - unfold emit, bind. rewrite Ht. simpl.
    exists [], 0. rewrite app_nil_r. simpl. repeat split; lia || auto.
Qed.

Lemma visit_child_counted expand depth c :
  (forall h d u p, respects counted (expand h d u p)) ->
  respects counted (visit_child srv MAX_COUNT expand depth c).
Proof.
  intros He. unfold visit_child, entry_label.
  destruct (label_of c); [|apply (@respects_raise _ counted counted_refl)].
  apply (@respects_bind _ counted counted_trans);
    [apply (@respects_ret _ counted counted_refl)|].
  intros lbl. apply emit_then_count.
  intros f. count_steps; first [apply fetch_hierarchy_counted|apply He].
Qed.

Lemma visit_self_counted expand depth c :
  (forall h d u p, respects counted (expand h d u p)) ->
  respects counted (visit_self srv expand depth c).
Proof.
  intros He. unfold visit_self, entry_label.
  count_steps; first [apply emit_counted|apply fetch_hierarchy_counted|apply He].
Qed.

Lemma process_hierarchy_counted fuel :
  forall h d u p,
    respects counted (process_hierarchy srv MAX_COUNT fuel h d u p).
Proof.
  induction fuel as [|fuel IH]; intros h d u p; simpl.
  - apply (@respects_diverge _ counted counted_refl).
  - count_steps; first [apply visit_child_counted|apply visit_self_counted];
      apply IH.
Qed.

Lemma main_counted fuel : respects counted (main srv MAX_COUNT fuel).
Proof.
  unfold main.
  apply (@respects_bind _ counted counted_trans); [apply fetch_hierarchy_counted|].
  intros h. unfold main_item.
  count_steps; first [apply emit_counted|apply process_hierarchy_counted].
Qed.

End Counter.

(** X11: in a run of the translation crawl, whatever its outcome, the
    counter never goes down and goes up by at most the number of entries
    appended to [results]; with the cap switched off ([MAX_COUNT = -1]) it
    does not move at all. *)
Theorem translation_counter_bounded_by_entries :
  forall (srv : Translation.Server) (MAX_COUNT : Z) (fuel : nat)
         (st : Translation.State),
    let st' := snd (Translation.main srv MAX_COUNT fuel st) in
    (List.length (Translation.results st)
     <= List.length (Translation.results st'))%nat
    /\ Translation.count st <= Translation.count st'
    /\ Translation.count st' - Translation.count st
       <= Z.of_nat (List.length (Translation.results st'))
          - Z.of_nat (List.length (Translation.results st))
    /\ (MAX_COUNT = -1 -> Translation.count st' = Translation.count st).
Proof.
  intros srv MAX_COUNT fuel st st'.
  destruct (main_counted srv MAX_COUNT fuel st) as (more & n & R & C & B & Z0).
  fold st' in R, C. rewrite R, C, length_app, Nat2Z.inj_add.
  repeat split; lia.
Qed.

(** ** What [remove_duplicates] returns *)

Lemma StronglySorted_remove {A} (R : A -> A -> Prop) (a : list A) x l :
  StronglySorted R (a ++ x :: l) -> StronglySorted R (a ++ l).
Proof.
  induction a as [|y a IH]; simpl; intros H.
  - now inversion H.
  - inversion H as [|? ? Hs Hall]; subst. constructor; [now apply IH|].
    apply Forall_app in Hall. destruct Hall as [Ha Hxl].
    apply Forall_app. split; [exact Ha|now inversion Hxl].
Qed.

Section RemoveDuplicatesOutput.
Import Translation.

Lemma loop_incl (l : list Entry) :
  forall seen acc r,
    remove_duplicates_loop seen acc l = Ok r -> incl r (acc ++ l).
Proof.
  induction l as [|e l IH]; intros seen acc r; simpl.
  - intros [= <-]. rewrite app_nil_r. apply incl_refl.
  - destruct (json_dumps e) as [s| |]; try discriminate.
    destruct (existsb (String.eqb s) seen); simpl; intros H; apply IH in H.
    + intros x Hx. apply H in Hx. apply in_app_or in Hx.
      apply in_or_app. destruct Hx; [now left|right; now right].
    + rewrite <- app_assoc in H. exact H.
Qed.

Lemma loop_sorted (R : Entry -> Entry -> Prop) (l : list Entry) :
  forall seen acc r,
    remove_duplicates_loop seen acc l = Ok r ->
    StronglySorted R (acc ++ l) -> StronglySorted R r.
Proof.
  induction l as [|e l IH]; intros seen acc r; simpl.
  - intros [= <-]. now rewrite app_nil_r.
  - destruct (json_dumps e) as [s| |]; try discriminate.
    destruct (existsb (String.eqb s) seen); simpl; intros H Hs.
    + apply (IH _ _ _ H). eapply StronglySorted_remove. exact Hs.
    + apply (IH _ _ _ H). now rewrite <- app_assoc.
Qed.

Lemma loop_distinct (l : list Entry) :
  forall seen acc r,
    remove_duplicates_loop seen acc l = Ok r ->
    NoDup (map json_dumps acc) ->
    (forall e, In e acc -> exists s, json_dumps e = Ok s /\ In s seen) ->
    NoDup (map json_dumps r).
Proof.
  induction l as [|e l IH]; intros seen acc r; simpl.
  - intros [= <-]. auto.
  - destruct (json_dumps e) as [s| |] eqn:Es; try discriminate.
    destruct (existsb (String.eqb s) seen) eqn:Eseen; simpl; intros H Hnd Hseen.
    + apply (IH _ _ _ H Hnd Hseen).
    + apply (IH _ _ _ H).
      * rewrite map_app. apply NoDup_app; [exact Hnd|simpl|].
        -- rewrite Es. repeat constructor. intros [].
        -- intros x Hx [Hs|[]]. apply in_map_iff in Hx.
           destruct Hx as (e0 & <- & He0).
           destruct (Hseen e0 He0) as (s0 & E0 & Hin).
           rewrite Es, E0 in Hs. injection Hs as <-.
           apply seen_In in Hin. congruence.
      * intros e0 He0. apply in_app_or in He0. destruct He0 as [He0|[<-|[]]].
        -- destruct (Hseen e0 He0) as (s0 & E0 & Hin).
           exists s0. split; [exact E0|now right].
        -- exists s. split; [exact Es|now left].
Qed.

Lemma loop_represents (l : list Entry) :
  forall seen acc r,
    remove_duplicates_loop seen acc l = Ok r ->
    (forall s, In s seen -> exists e', In e' acc /\ json_dumps e' = Ok s) ->
    forall e, In e l -> exists e', In e' r /\ json_dumps e' = json_dumps e.
Proof.
  induction l as [|e l IH]; intros seen acc r; simpl; [intros _ _ ? []|].
  destruct (json_dumps e) as [s| |] eqn:Es; try discriminate.
  destruct (existsb (String.eqb s) seen) eqn:Eseen; simpl; intros H Hseen x Hx.
  - destruct Hx as [<-|Hx]; [|exact (IH _ _ _ H Hseen x Hx)].
    apply seen_In in Eseen. destruct (Hseen s Eseen) as (e' & He' & E').
    exists e'. split; [|congruence].
    destruct (loop_appends _ _ _ H) as (k & -> & _).
    apply in_or_app. now left.
  - assert (Hseen' : forall s0, In s0 (s :: seen) ->
                       exists e', In e' (acc ++ [e]) /\ json_dumps e' = Ok s0).
    { intros s0 [<-|Hs0].
      - exists e. split; [apply in_or_app; right; now left|exact Es].
      - destruct (Hseen s0 Hs0) as (e' & He' & E').
        exists e'. split; [apply in_or_app; now left|exact E']. }
    destruct Hx as [<-|Hx]; [|exact (IH _ _ _ H Hseen' x Hx)].
    exists e. split; [|reflexivity].
    destruct (loop_appends _ _ _ H) as (k & -> & _).
    apply in_or_app. left. apply in_or_app. right. now left.
Qed.

Lemma remove_duplicates_output (l l' : list Entry) :
  remove_duplicates l = Ok l' ->
  NoDup (map json_dumps l')
  /\ incl l' l
  /\ (forall e, In e l -> exists e', In e' l' /\ json_dumps e' = json_dumps e)
  /\ (forall R : Entry -> Entry -> Prop, StronglySorted R l -> StronglySorted R l').
Proof.
  unfold remove_duplicates. intros H. repeat split.
  - apply (loop_distinct _ _ _ H); [constructor|intros ? []].
  - apply (loop_incl _ _ _ H).
  - apply (loop_represents _ _ _ H). intros ? [].
  - intros R Hs. apply (@loop_sorted R l [] [] l' H). exact Hs.
Qed.

End RemoveDuplicatesOutput.

(** X12: whenever [remove_duplicates] returns, no two entries of its output
    have the same serialization; every entry of the output is an entry of
    the input, every entry of the input has an entry of the output with the
    same serialization, and the output keeps the order of the input: any
    ordering in which the input is sorted, the output is sorted in too. *)
Theorem remove_duplicates_output_is_duplicate_free :
  forall l l' : list Translation.Entry,
    Translation.remove_duplicates l = Ok l' ->
    NoDup (map Translation.json_dumps l')
    /\ incl l' l
    /\ (forall e, In e l ->
                  exists e', In e' l'
                             /\ Translation.json_dumps e' = Translation.json_dumps e)
    /\ (forall R : Translation.Entry -> Translation.Entry -> Prop,
           StronglySorted R l -> StronglySorted R l').
Proof.
  unfold Translation.remove_duplicates. intros l l' H. repeat split.
  - apply (loop_distinct _ _ _ H); [constructor|intros ? []].
  - apply (loop_incl _ _ _ H).
  - apply (loop_represents _ _ _ H). intros ? [].
  - intros R Hs. apply (@loop_sorted R l [] [] l' H). exact Hs.
Qed.

Lemma remove_duplicates_output_is_duplicate_free_witness :
  let flute := Translation.mkEntry "Flute" (Some [(Some "en", Some "Flute")]) "12" in
  let horn := Translation.mkEntry "Horn" None "13" in
  NoDup (map Translation.json_dumps [flute; horn])
  /\ incl [flute; horn] [flute; flute; horn; flute]
  /\ (forall e, In e [flute; flute; horn; flute] ->
                exists e', In e' [flute; horn]
                           /\ Translation.json_dumps e' = Translation.json_dumps e)
  /\ (forall R : Translation.Entry -> Translation.Entry -> Prop,
         StronglySorted R [flute; flute; horn; flute] ->
         StronglySorted R [flute; horn]).
Proof.
  intros flute horn.
  apply (@remove_duplicates_output_is_duplicate_free
           [flute; flute; horn; flute] [flute; horn]).
  vm_compute. reflexivity.
Defined.

(** ** The output of the translation crawl *)

Lemma translation_main_returns (srv : Translation.Server) MAX_COUNT fuel st out st' :
  Translation.main srv MAX_COUNT fuel st = (Ok out, st') ->
  Translation.remove_duplicates
    (sorted String.ltb Translation.Label (Translation.results st')) = Ok out.
Proof.
  unfold Translation.main. unfold bind at 1.
  destruct (Translation.fetch_hierarchy srv "2208" st) as [[[h|]|e|] st0];
    try discriminate.
  destruct (Translation.broaderTransitive h) as [bt|]; try discriminate.
  unfold bind at 1.
  destruct (for_each _ _ st0) as [[[]|e|] st1]; try discriminate.
  unfold bind, get.
  destruct (Translation.remove_duplicates _) as [o| |] eqn:E; try discriminate.
  intros [= <- <-]. exact E.
Qed.

(** X13: whenever the translation crawl returns its output, the output is
    sorted by label in the default ordering of strings, no two of its
    entries have the same serialization, each of its entries was emitted
    during the run, and every emitted entry is represented in it by an entry
    with the same serialization. *)
Theorem translation_output_is_sorted_and_clean :
  forall (srv : Translation.Server) (MAX_COUNT : Z) (fuel : nat)
         (st st' : Translation.State) (out : list Translation.Entry),
    Translation.main srv MAX_COUNT fuel st = (Ok out, st') ->
    StronglySorted
      (fun a b => String.ltb (Translation.Label b) (Translation.Label a) = false) out
    /\ NoDup (map Translation.json_dumps out)
    /\ incl out (Translation.results st')
    /\ (forall e, In e (Translation.results st') ->
                  exists e', In e' out
                             /\ Translation.json_dumps e' = Translation.json_dumps e).
Proof.
  intros srv MAX_COUNT fuel st st' out Hmain.
  apply translation_main_returns in Hmain.
  destruct (remove_duplicates_output _ Hmain) as (Hnd & Hincl & Hrep & Hsort).
  repeat split.
  - apply Hsort.
    apply (sorted_sorted String.ltb Translation.Label).
    + apply string_ltb_asym.
    + apply string_le_trans.
  - exact Hnd.
  - intros e He. apply Hincl in He. now apply sorted_In_iff in He.
  - intros e He. apply Hrep. now apply sorted_In_iff.
Qed.

Lemma translation_output_is_sorted_and_clean_witness :
  let st' := snd (Translation.main (Scenario.translation 200) (-1) 5
                                   Translation.initial) in
  let out := [Translation.mkEntry "Aerophones" (Some []) "2";
              Translation.mkEntry "Bells" (Some []) "3";
              Translation.mkEntry "Flutes" (Some []) "4";
              Translation.mkEntry "Horns" (Some []) "5";
              Translation.mkEntry "Instruments" (Some []) "2208"] in
  StronglySorted
    (fun a b => String.ltb (Translation.Label b) (Translation.Label a) = false) out
  /\ NoDup (map Translation.json_dumps out)
  /\ incl out (Translation.results st')
  /\ (forall e, In e (Translation.results st') ->
                exists e', In e' out
                           /\ Translation.json_dumps e' = Translation.json_dumps e).
Proof.
  intros st' out.
  apply (@translation_output_is_sorted_and_clean
           (Scenario.translation 200) (-1) 5%nat Translation.initial st' out).
  vm_compute. reflexivity.
Defined.

(** ** When [remove_duplicates] raises *)

(** The translations of the entry hold a [None] language tag next to
    another tag: what [sort_keys=True] cannot sort. *)
Definition mixed_keys (e : Translation.Entry) : bool :=
  match Translation.Translations e with
  | Some t =>
      existsb (fun kv => Translation.is_none (fst kv)) t
      && (1 <? List.length t)%nat
  | None => false
  end.

Lemma json_dumps_outcome (e : Translation.Entry) :
  if mixed_keys e then Translation.json_dumps e = Raise TypeError
  else exists s, Translation.json_dumps e = Ok s.
Proof.
  unfold mixed_keys, Translation.json_dumps, Translation.dumps_translations,
    Translation.sort_keys.
  destruct (Translation.Translations e) as [t|]; [|eauto].
  destruct (existsb _ t && _)%bool; eauto.
Qed.

Lemma loop_total (l : list Translation.Entry) :
  forall seen acc,
    forallb (fun e => negb (mixed_keys e)) l = true ->
    exists r, Translation.remove_duplicates_loop seen acc l = Ok r.
Proof.
  induction l as [|e l IH]; intros seen acc; simpl; [eauto|].
  intros H. apply andb_true_iff in H. destruct H as [He Hl].
  assert (Hd := json_dumps_outcome e).
  destruct (mixed_keys e); [discriminate|]. destruct Hd as (s & ->).
  destruct (negb (existsb _ seen)); apply IH; exact Hl.
Qed.

Lemma loop_raises (l : list Translation.Entry) :
  forall seen acc,
    existsb mixed_keys l = true ->
    Translation.remove_duplicates_loop seen acc l = Raise TypeError.
Proof.
  induction l as [|e l IH]; intros seen acc; simpl; [discriminate|].
  intros H. assert (Hd := json_dumps_outcome e).
  destruct (mixed_keys e); [now rewrite Hd|].
  destruct Hd as (s & ->). simpl in H.
  destruct (negb (existsb _ seen)); apply IH; exact H.
Qed.

(** X14: [remove_duplicates] returns a list exactly when no entry of its
    input has translations that hold a [None] language tag (a label without
    [xml:lang]) next to another tag; when some entry has, the call raises
    the [TypeError] of [json.dumps(entry, sort_keys=True)]. *)
Theorem remove_duplicates_raises_on_mixed_keys :
  forall l : list Translation.Entry,
    (existsb mixed_keys l = false ->
     exists l', Translation.remove_duplicates l = Ok l')
    /\ (existsb mixed_keys l = true ->
        Translation.remove_duplicates l = Raise TypeError).
Proof.
  intros l. split; intros H.
  - apply loop_total.
    apply forallb_forall. intros e He.
    destruct (mixed_keys e) eqn:E; [|reflexivity].
    assert (existsb mixed_keys l = true)
      by (apply existsb_exists; exists e; auto).
    congruence.
  - now apply loop_raises.
Qed.

Lemma remove_duplicates_raises_on_mixed_keys_witness :
  (exists l',
      Translation.remove_duplicates
        [Translation.mkEntry "Flute" (Some [(None, Some "Flute")]) "12"] = Ok l')
  /\ Translation.remove_duplicates
       [Translation.mkEntry "Flute"
          (Some [(None, Some "Flute"); (Some "de", Some "Floete")]) "12"]
     = Raise TypeError.
Proof.
  split.
  - apply (proj1 (remove_duplicates_raises_on_mixed_keys _)). reflexivity.
  - apply (proj2 (remove_duplicates_raises_on_mixed_keys _)). reflexivity.
Defined.

(** ** Which entries share a serialization *)

(** Reading back the first character written by [escape_char]; [None] on a
    bare quote, which [escape] never writes. *)
Definition hex_value (c : ascii) : N :=
  let n := N_of_ascii c in
  if (n <? 58)%N then (n - 48)%N else (n - 87)%N.

Definition unescape_head (s : string) : option (ascii * string) :=
  match s with
  | EmptyString => None
  | String c r =>
      if Ascii.eqb c Translation.backslash then
        match r with
        | String e r' =>
            let m := N_of_ascii e in
            if (m =? 34)%N then Some (Translation.quote, r')
            else if (m =? 92)%N then Some (Translation.backslash, r')
            else if (m =? 98)%N then Some (ascii_of_N 8, r')
            else if (m =? 102)%N then Some (ascii_of_N 12, r')
            else if (m =? 110)%N then Some (ascii_of_N 10, r')
            else if (m =? 114)%N then Some (ascii_of_N 13, r')
            else if (m =? 116)%N then Some (ascii_of_N 9, r')
            else if (m =? 117)%N then
              match r' with
              | String _ (String _ (String h1 (String h2 r''))) =>
                  Some (ascii_of_N (16 * hex_value h1 + hex_value h2), r'')
              | _ => None
              end
            else None
        | EmptyString => None
        end
      else if Ascii.eqb c Translation.quote then None
      else Some (c, r)
  end.

Lemma unescape_escape_char (c : ascii) (r : string) :
  unescape_head (Translation.escape_char c ++ r) = Some (c, r).
Proof.
  destruct c as [[] [] [] [] [] [] [] []]; reflexivity.
Qed.

Lemma string_app_assoc (a b c : string) : ((a ++ b) ++ c = a ++ (b ++ c))%string.
Proof. induction a as [|x a IH]; simpl; [reflexivity|now rewrite IH]. Qed.

Lemma string_app_nil_r (a : string) : (a ++ "" = a)%string.
Proof. induction a as [|x a IH]; simpl; [reflexivity|now rewrite IH]. Qed.

(** The escaped form of a string, followed by the closing quote, can be read
    back in one way only. *)
Lemma escape_prefix_free (s1 : string) :
  forall s2 r1 r2,
    (Translation.escape s1 ++ String Translation.quote r1
     = Translation.escape s2 ++ String Translation.quote r2)%string ->
    s1 = s2 /\ r1 = r2.
Proof.
  induction s1 as [|c1 s1 IH]; intros [|c2 s2] r1 r2; simpl.
  - intros [= ->]. auto.
  - rewrite string_app_assoc. intros H.
    apply (f_equal unescape_head) in H.
    rewrite unescape_escape_char in H. discriminate.
  - rewrite string_app_assoc. intros H.
    apply (f_equal unescape_head) in H.
    rewrite unescape_escape_char in H. discriminate.
  - rewrite !string_app_assoc. intros H.
    assert (H' := f_equal unescape_head H).
    rewrite !unescape_escape_char in H'. injection H' as <- H'.
    destruct (IH _ _ _ H') as [<- <-]. auto.
Qed.

Lemma dumps_str_prefix_free (a b r1 r2 : string) :
  (Translation.dumps_str a ++ r1 = Translation.dumps_str b ++ r2)%string ->
  a = b /\ r1 = r2.
Proof.
  unfold Translation.dumps_str. simpl. rewrite !string_app_assoc. simpl.
  intros [= H]. now apply escape_prefix_free in H.
Qed.

(** The name a language tag is written under, and the items of a
    translations mapping as they are written: sorted by tag, a missing tag
    written as the tag [null]. *)
Definition key_name (k : option string) : string :=
  match k with
  | Some s => s
  | None => "null"
  end.

Definition written_items (t : option Translation.translations)
  : option (list (string * option string)) :=
  option_map (fun t => map (fun kv => (key_name (fst kv), snd kv))
                           (sorted Translation.key_ltb fst t)) t.

Section Serialization.
Import Translation.

Definition item' (kv : string * option string) : string :=
  dumps_str (fst kv) ++ ": " ++ dumps_opt_str (snd kv).

Lemma string_app_inv_head (a x y : string) : (a ++ x = a ++ y)%string -> x = y.
Proof. induction a as [|c a IH]; simpl; [auto|]. intros [= H]. auto. Qed.

Lemma join_cons (x : string) (l : list string) (R : string) :
  (join ", " (x :: l) ++ R
   = x ++ match l with [] => R | _ => ", " ++ (join ", " l ++ R) end)%string.
Proof.
  destruct l as [|y l]; [reflexivity|].
  change (join ", " (x :: y :: l)) with (x ++ ", " ++ join ", " (y :: l))%string.
  now rewrite !string_app_assoc.
Qed.

Lemma item'_head (kv : string * option string) (R : string) :
  exists R', (item' kv ++ R = String quote R')%string.
Proof. unfold item', dumps_str. simpl. eauto. Qed.

Lemma item'_app (k : string) (v : option string) (R : string) :
  (item' (k, v) ++ R = dumps_str k ++ (": " ++ (dumps_opt_str v ++ R)))%string.
Proof. unfold item'. simpl fst. simpl snd. now rewrite !string_app_assoc. Qed.

(** A written list of items, followed by the closing brace, can be read
    back in one way only. *)
Lemma items_prefix_free (l1 : list (string * option string)) :
  forall l2 r1 r2,
    (join ", " (map item' l1) ++ String "}" r1
     = join ", " (map item' l2) ++ String "}" r2)%string ->
    l1 = l2 /\ r1 = r2.
Proof.
  induction l1 as [|[k1 v1] l1 IH]; intros [|[k2 v2] l2] r1 r2.
  - simpl. intros [= ->]. auto.
  - simpl map. rewrite join_cons.
    destruct (item'_head (k2, v2)
                match map item' l2 with
                | [] => String "}" r2
                | _ => (", " ++ (join ", " (map item' l2) ++ String "}" r2))%string
                end) as (R' & ->).
    simpl. intros H. inversion H.
  - simpl map. rewrite join_cons.
    destruct (item'_head (k1, v1)
                match map item' l1 with
                | [] => String "}" r1
                | _ => (", " ++ (join ", " (map item' l1) ++ String "}" r1))%string
                end) as (R' & ->).
    simpl. intros H. inversion H.
  - simpl map. rewrite !join_cons, !item'_app. intros H.
    apply dumps_str_prefix_free in H. destruct H as [<- H].
    simpl in H. injection H as H.
    assert (Hv : v1 = v2
                 /\ match map item' l1 with
                    | [] => String "}" r1
                    | _ => (", " ++ (join ", " (map item' l1) ++ String "}" r1))%string
                    end
                    = match map item' l2 with
                      | [] => String "}" r2
                      | _ => (", " ++ (join ", " (map item' l2) ++ String "}" r2))%string
                      end).
    { destruct v1 as [a|], v2 as [b|]; simpl in H.
      - apply dumps_str_prefix_free in H. destruct H as [<- H]. auto.
      - unfold dumps_str in H. simpl in H. inversion H.
      - unfold dumps_str in H. simpl in H. inversion H.
      - injection H as H. auto. }
    destruct Hv as [<- Ht].
    destruct l1 as [|x1 l1], l2 as [|x2 l2]; simpl map in Ht.
    + injection Ht as <-. auto.
    + simpl in Ht. inversion Ht.
    + simpl in Ht. inversion Ht.
    + cbv iota in Ht. simpl in Ht. injection Ht as Ht.
      destruct (IH (x2 :: l2) r1 r2 Ht) as [-> <-]. auto.
Qed.

Lemma dumps_key_name (k : option string) : dumps_key k = dumps_str (key_name k).
Proof. destruct k; reflexivity. Qed.

(** What [dumps_translations] writes depends on the written items only. *)
Lemma dumps_translations_written (t : option translations) (s : string) :
  dumps_translations t = Ok s ->
  s = match written_items t with
      | None => "null"
      | Some items => ("{" ++ join ", " (map item' items) ++ "}")%string
      end.
Proof.
  unfold dumps_translations, written_items.
  destruct t as [t|]; simpl; [|now intros [= <-]].
  unfold sort_keys. destruct (existsb _ t && _)%bool; [discriminate|].
  intros [= <-]. rewrite map_map. f_equal. f_equal. f_equal.
  apply map_ext. intros [k v]. unfold item'. simpl. now rewrite dumps_key_name.
Qed.

Lemma json_dumps_written (e : Entry) (s : string) :
  json_dumps e = Ok s ->
  exists t,
    dumps_translations (Translations e) = Ok t
    /\ s = ("{" ++ dumps_str "Label" ++ ": " ++ dumps_str (Label e) ++ ", "
                ++ dumps_str "MIMOPage" ++ ": " ++ dumps_str (MIMOPage e) ++ ", "
                ++ dumps_str "Translations" ++ ": " ++ t ++ "}")%string.
Proof.
  unfold json_dumps.
  destruct (dumps_translations (Translations e)) as [t| |]; try discriminate.
  intros [= <-]. eauto.
Qed.

End Serialization.

(** X15: what "duplicate" means to [remove_duplicates].  Two entries that
    both serialize have the same serialization exactly when they have the
    same label, the same page, and translations that are both [None] or hold
    the same items once these are sorted by language tag and a missing tag
    is written as the tag [null]. *)
Theorem json_dumps_identifies_equal_entries :
  forall (e1 e2 : Translation.Entry) (s1 s2 : string),
    Translation.json_dumps e1 = Ok s1 ->
    Translation.json_dumps e2 = Ok s2 ->
    (s1 = s2 <->
     Translation.Label e1 = Translation.Label e2
     /\ Translation.MIMOPage e1 = Translation.MIMOPage e2
     /\ written_items (Translation.Translations e1)
        = written_items (Translation.Translations e2)).
Proof.
  intros e1 e2 s1 s2 H1 H2.
  destruct (json_dumps_written _ H1) as (t1 & Ht1 & ->).
  destruct (json_dumps_written _ H2) as (t2 & Ht2 & ->).
  apply dumps_translations_written in Ht1, Ht2.
  split.
  - intros H.
    apply string_app_inv_head in H. apply string_app_inv_head in H.
    apply string_app_inv_head in H.
    apply dumps_str_prefix_free in H. destruct H as [HL H].
    apply string_app_inv_head in H. apply string_app_inv_head in H.
    apply string_app_inv_head in H.
    apply dumps_str_prefix_free in H. destruct H as [HP H].
    apply string_app_inv_head in H. apply string_app_inv_head in H.
    apply string_app_inv_head in H.
    split; [exact HL|]. split; [exact HP|].
    subst t1 t2.
    destruct (written_items (Translation.Translations e1)) as [i1|],
             (written_items (Translation.Translations e2)) as [i2|];
      simpl in H; try (inversion H; fail); [|reflexivity].
    injection H as H. rewrite !string_app_assoc in H. simpl in H.
    apply items_prefix_free in H. destruct H as [-> _]. reflexivity.
  - intros (HL & HP & HT). rewrite HL, HP. subst t1 t2. now rewrite HT.
Qed.

Lemma json_dumps_identifies_equal_entries_witness :
  let e1 := Translation.mkEntry "Flute"
              (Some [(Some "en", Some "Flute"); (Some "de", Some "Floete")]) "12" in
  let e2 := Translation.mkEntry "Flute"
              (Some [(Some "de", Some "Floete"); (Some "en", Some "Flute")]) "12" in
  let s1 := match Translation.json_dumps e1 with Ok s => s | _ => "" end in
  let s2 := match Translation.json_dumps e2 with Ok s => s | _ => "" end in
  s1 = s2 <->
  Translation.Label e1 = Translation.Label e2
  /\ Translation.MIMOPage e1 = Translation.MIMOPage e2
  /\ written_items (Translation.Translations e1)
     = written_items (Translation.Translations e2).
Proof.
  intros e1 e2 s1 s2.
  apply (@json_dumps_identifies_equal_entries e1 e2 s1 s2); reflexivity.
Defined.

(** ** Sorting the classification output again *)

Section SortAgain.
Context {A K : Type} (ltb : K -> K -> bool) (key : A -> K).

(** Sorting a sorted list changes nothing. *)
Lemma sorted_fixed (l : list A) :
  StronglySorted (fun x y => ltb (key y) (key x) = false) l ->
  sorted ltb key l = l.
Proof.
  induction 1 as [|x l Hs IH Hall]; simpl; [reflexivity|].
  fold (sorted ltb key l). rewrite IH.
  destruct l as [|y l]; [reflexivity|]. simpl.
  inversion Hall as [|? ? Hy _]; subst. now rewrite Hy.
Qed.

End SortAgain.

Lemma dict_get_In {V} (d : dict string V) k v :
  NoDup (map fst d) ->
  (dict_get String.eqb d k = Some v <-> In (k, v) d).
Proof.
  induction d as [|[k0 v0] d IH]; simpl; intros Hnd.
  - split; [discriminate|tauto].
  - inversion Hnd as [|? ? Hk Hnd']; subst.
    destruct (String.eqb k0 k) eqn:E.
    + apply String.eqb_eq in E. subst k0. split.
      * intros [= <-]. now left.
      * intros [[= <-]|H]; [reflexivity|].
        exfalso. apply Hk. apply (in_map fst) in H. exact H.
    + apply String.eqb_neq in E. rewrite (IH Hnd'). split; [now right|].
      intros [[= -> _]|H]; [congruence|exact H].
Qed.

Lemma dict_get_perm {V} (d d' : dict string V) k :
  NoDup (map fst d) -> Permutation d d' ->
  dict_get String.eqb d' k = dict_get String.eqb d k.
Proof.
  intros Hnd Hp.
  assert (Hnd' : NoDup (map fst d'))
    by (eapply Permutation_NoDup; [apply Permutation_map; exact Hp|exact Hnd]).
  destruct (dict_get String.eqb d k) as [v|] eqn:E.
  - apply (proj2 (@dict_get_In _ d' k v Hnd')). apply (Permutation_in _ Hp).
    now apply (proj1 (@dict_get_In _ d k v Hnd)).
  - destruct (dict_get String.eqb d' k) as [v|] eqn:E'; [|reflexivity].
    apply (proj1 (@dict_get_In _ d' k v Hnd')) in E'.
    apply (Permutation_in _ (Permutation_sym Hp)) in E'.
    apply (proj2 (@dict_get_In _ d k v Hnd)) in E'. congruence.
Qed.

(** X16: on a mapping with distinct keys, [sort_results] changes no lookup
    (every notation still leads to the entry it led to) and is idempotent:
    sorting its output again gives the same output. *)
Theorem sort_results_keeps_lookups :
  forall results : dict string HornbostelSachs.Entry,
    NoDup (map fst results) ->
    exists sorted_results,
      HornbostelSachs.sort_results results = Ok sorted_results
      /\ (forall k, dict_get String.eqb sorted_results k
                    = dict_get String.eqb results k)
      /\ HornbostelSachs.sort_results sorted_results = Ok sorted_results.
Proof.
  intros results Hnd.
  exists (sorted String.ltb fst results).
  assert (Hp : Permutation results (sorted String.ltb fst results))
    by apply sorted_perm.
  assert (Hnd' : NoDup (map fst (sorted String.ltb fst results)))
    by (eapply Permutation_NoDup; [apply Permutation_map; exact Hp|exact Hnd]).
  split; [now apply sort_results_nodup|]. split.
  - intros k. now apply dict_get_perm.
  - rewrite (@sort_results_nodup _ Hnd'). apply f_equal.
    apply sorted_fixed.
    apply (sorted_sorted String.ltb (@fst string HornbostelSachs.Entry)).
    + apply string_ltb_asym.
    + apply string_le_trans.
Qed.

Lemma sort_results_keeps_lookups_witness :
  let a := HornbostelSachs.mkEntry "Bells" [] "struck" "1" in
  let b := HornbostelSachs.mkEntry "Gongs" [] "struck too" "2" in
  exists sorted_results,
    HornbostelSachs.sort_results [("112", b); ("111", a)] = Ok sorted_results
    /\ (forall k, dict_get String.eqb sorted_results k
                  = dict_get String.eqb [("112", b); ("111", a)] k)
    /\ HornbostelSachs.sort_results sorted_results = Ok sorted_results.
Proof.
  intros a b.
  apply (@sort_results_keeps_lookups [("112", b); ("111", a)]).
  repeat constructor; simpl; intuition discriminate.
Defined.

(** ** A level of leaves in the translation crawl *)

Section Leaves.
Import Translation.
Variable srv : Server.

Lemma visit_leaf expand depth c lbl st :
  label_of c = Some lbl -> hasChildren c = false ->
  plain_page (get_page_number_from_uri (uri c)) = true ->
  exists t st1,
    visit_child srv (-1) expand depth c st = (Ok Next, st1)
    /\ results st1
       = (results st ++ [mkEntry lbl t (get_page_number_from_uri (uri c))])%list
    /\ http_log st1
       = (http_log st ++ [data_url (get_page_number_from_uri (uri c))])%list
    /\ count st1 = count st.
Proof.
  intros Hlbl Hleaf Hplain. unfold visit_child, entry_label.
  rewrite Hlbl, Hleaf.
  destruct (emit_spec srv lbl (get_page_number_from_uri (uri c)) st Hplain)
    as (t & st1 & He & Hr & Hl & Hc).
  rewrite (@bind_ok _ _ _ (ret lbl) _ st lbl st eq_refl).
  rewrite (bind_ok _ _ _ He).
  exists t, st1. repeat split; assumption.
Qed.

Lemma visit_leaves expand depth (cs : list Child) :
  Forall (fun c => hasChildren c = false /\ label_of c <> None
                   /\ plain_page (get_page_number_from_uri (uri c)) = true) cs ->
  forall st,
    exists st' entries,
      for_each (visit_child srv (-1) expand depth) cs st = (Ok tt, st')
      /\ results st' = (results st ++ entries)%list
      /\ map (fun e => (Some (Label e), MIMOPage e)) entries
         = map (fun c => (label_of c, get_page_number_from_uri (uri c))) cs
      /\ http_log st'
         = (http_log st
              ++ map (fun c => data_url (get_page_number_from_uri (uri c))) cs)%list
      /\ count st' = count st.
Proof.
  induction 1 as [|c cs (Hleaf & Hlbl & Hplain) _ IH]; intros st; simpl.
  - exists st, []. rewrite !app_nil_r. repeat split.
  - destruct (label_of c) as [lbl|] eqn:El; [|congruence].
    destruct (visit_leaf expand depth c st El Hleaf Hplain)
      as (t & st1 & Hv & Hr1 & Hl1 & Hc1).
    rewrite Hv.
    destruct (IH st1) as (st' & entries & Hf & Hr & Hm & Hl & Hc).
    exists st', (mkEntry lbl t (get_page_number_from_uri (uri c)) :: entries).
    rewrite Hf, Hr, Hr1, Hl, Hl1, Hc, Hc1, <- !app_assoc. simpl. rewrite Hm.
    repeat split.
Qed.

End Leaves.

(** X17: with the cap switched off, a call of the translation
    [process_hierarchy] for a URI whose narrower children are all leaves
    with a label, and whose pages (the last segments of their URIs) hold no
    double quote and no control character, returns normally; it appends
    exactly one entry per child, in the order of the document, each with the
    label and the page of its child; it issues exactly the [data] requests
    of the children, in order, and no hierarchy request; the counter is left
    alone.  (A page with a double quote is pasted into the query of line 49
    as it is, and the evaluation of that query may raise.) *)
Theorem translation_leaves_are_emitted_in_order :
  forall (srv : Translation.Server) (fuel depth : nat)
         (h : Translation.Hierarchy) (bt : dict string Translation.Broader)
         (u : string) (b : Translation.Broader) (cs : list Translation.Child)
         (page : option string) (st : Translation.State),
    Translation.broaderTransitive h = Some bt ->
    dict_get String.eqb bt u = Some b ->
    Translation.narrower b = Some cs ->
    Forall (fun c => Translation.hasChildren c = false
                     /\ Translation.label_of c <> None
                     /\ Translation.plain_page
                          (Translation.get_page_number_from_uri (Translation.uri c))
                        = true) cs ->
    exists st' entries,
      Translation.process_hierarchy srv (-1) (S fuel) (Some h) depth (Some u) page st
      = (Ok tt, st')
      /\ Translation.results st' = (Translation.results st ++ entries)%list
      /\ map (fun e => (Some (Translation.Label e), Translation.MIMOPage e)) entries
         = map (fun c => (Translation.label_of c,
                          Translation.get_page_number_from_uri (Translation.uri c)))
               cs
      /\ Translation.http_log st'
         = (Translation.http_log st
              ++ map (fun c => Translation.data_url
                                 (Translation.get_page_number_from_uri
                                    (Translation.uri c))) cs)%list
      /\ Translation.count st' = Translation.count st.
Proof.
  intros srv fuel depth h bt u b cs page st Hbt Hu Hn Hcs.
  destruct (visit_leaves srv (Translation.process_hierarchy srv (-1) fuel) depth
              Hcs st) as (st' & entries & Hf & Hrest).
  exists st', entries. split; [|exact Hrest].
  simpl. unfold bind at 1. unfold get.
  unfold Translation.cap_reached. simpl.
  rewrite Hbt. simpl. rewrite Hu, Hn.
  rewrite (bind_ok _ _ _ Hf). reflexivity.
Qed.

Lemma translation_leaves_are_emitted_in_order_witness :
  exists st' entries,
    Translation.process_hierarchy (Scenario.translation 200) (-1) 1
      (Some Scenario.page2_doc) 1 (Some (Scenario.kw "2")) (Some "2")
      Translation.initial
    = (Ok tt, st')
    /\ Translation.results st' = (Translation.results Translation.initial ++ entries)%list
    /\ map (fun e => (Some (Translation.Label e), Translation.MIMOPage e)) entries
       = map (fun c => (Translation.label_of c,
                        Translation.get_page_number_from_uri (Translation.uri c)))
             [Scenario.child "4" "Flutes" false; Scenario.child "5" "Horns" false]
    /\ Translation.http_log st'
       = (Translation.http_log Translation.initial
            ++ map (fun c => Translation.data_url
                               (Translation.get_page_number_from_uri
                                  (Translation.uri c)))
                   [Scenario.child "4" "Flutes" false;
                    Scenario.child "5" "Horns" false])%list
    /\ Translation.count st' = Translation.count Translation.initial.
Proof.
  apply (@translation_leaves_are_emitted_in_order
           (Scenario.translation 200) 0%nat 1%nat Scenario.page2_doc
           [(Scenario.kw "2",
             Translation.mkBroader (Scenario.child "2" "Aerophones" true)
               (Some [Scenario.child "4" "Flutes" false;
                      Scenario.child "5" "Horns" false]))]
           (Scenario.kw "2")
           (Translation.mkBroader (Scenario.child "2" "Aerophones" true)
              (Some [Scenario.child "4" "Flutes" false;
                     Scenario.child "5" "Horns" false]))).
  - reflexivity.
  - reflexivity.
  - reflexivity.
  - repeat constructor; discriminate.
Defined.

(** ** A hierarchy document that does not list the URI it was asked for *)

(** X18: [process_hierarchy] is called for a child with the URI of the child
    and the hierarchy document fetched for it; when the cap is not reached
    and the [broaderTransitive] mapping of that document has no entry for
    the URI, the call raises [KeyError], in both scripts, and leaves the
    store as it was. *)
Theorem process_hierarchy_unlisted_uri_raises :
  forall (srvH : HornbostelSachs.Server) (srvT : Translation.Server)
         (MAX_COUNT : Z) (fuel depth : nat) (u : string) (page : option string)
         (hH : HornbostelSachs.Hierarchy) (btH : dict string HornbostelSachs.Broader)
         (hT : Translation.Hierarchy) (btT : dict string Translation.Broader)
         (stH : HornbostelSachs.State) (stT : Translation.State),
    HornbostelSachs.cap_reached MAX_COUNT stH = false ->
    Translation.cap_reached MAX_COUNT stT = false ->
    HornbostelSachs.broaderTransitive hH = Some btH ->
    Translation.broaderTransitive hT = Some btT ->
    dict_get String.eqb btH u = None ->
    dict_get String.eqb btT u = None ->
    HornbostelSachs.process_hierarchy srvH MAX_COUNT (S fuel) (Some hH) depth (Some u) stH
    = (Raise KeyError, stH)
    /\ Translation.process_hierarchy srvT MAX_COUNT (S fuel) (Some hT) depth (Some u)
         page stT
       = (Raise KeyError, stT).
Proof.
  intros srvH srvT MAX_COUNT fuel depth u page hH btH hT btT stH stT
         HcH HcT HbH HbT HuH HuT.
  split; simpl; unfold bind at 1; unfold get.
  - rewrite HcH, HbH. simpl. now rewrite HuH.
  - rewrite HcT, HbT. simpl. now rewrite HuT.
Qed.

Lemma process_hierarchy_unlisted_uri_raises_witness :
  HornbostelSachs.process_hierarchy (Scenario.classification 200 200 true) (-1) 1
    (Some (HornbostelSachs.mkHierarchy (Some []))) 0 (Some (Scenario.kw "7"))
    HornbostelSachs.initial
  = (Raise KeyError, HornbostelSachs.initial)
  /\ Translation.process_hierarchy (Scenario.translation 200) (-1) 1
       (Some Scenario.page2_doc) 0 (Some (Scenario.kw "7")) None Translation.initial
     = (Raise KeyError, Translation.initial).
Proof.
  apply (@process_hierarchy_unlisted_uri_raises
           (Scenario.classification 200 200 true) (Scenario.translation 200)
           (-1) 0%nat 0%nat (Scenario.kw "7") None
           (HornbostelSachs.mkHierarchy (Some [])) [] Scenario.page2_doc
           [(Scenario.kw "2",
             Translation.mkBroader (Scenario.child "2" "Aerophones" true)
               (Some [Scenario.child "4" "Flutes" false;
                      Scenario.child "5" "Horns" false]))]);
    reflexivity.
Defined.

(** ** The first request of the translation crawl *)

(** X19: the translation crawl does not survive a failure of its first
    request.  When the hierarchy request for the root page 2208 answers with
    a status other than 200, [main] records the URL and then raises
    [TypeError] on the subscript of [None]; when it answers 200 with a
    document without [broaderTransitive], [main] raises [KeyError].  In both
    cases no entry has been emitted. *)
Theorem translation_main_needs_its_root :
  forall (srv : Translation.Server) (MAX_COUNT : Z) (fuel : nat)
         (st : Translation.State),
    let url := Translation.hierarchy_url "2208" in
    let r := Translation.main srv MAX_COUNT fuel st in
    (fst (Translation.hierarchy_doc srv url) <> 200 ->
     fst r = Raise TypeError
     /\ Translation.failed_urls (snd r) = (Translation.failed_urls st ++ [url])%list
     /\ Translation.results (snd r) = Translation.results st)
    /\ (fst (Translation.hierarchy_doc srv url) = 200 ->
        Translation.broaderTransitive (snd (Translation.hierarchy_doc srv url)) = None ->
        fst r = Raise KeyError
        /\ Translation.failed_urls (snd r) = Translation.failed_urls st
        /\ Translation.results (snd r) = Translation.results st).
Proof.
  intros srv MAX_COUNT fuel st url r. subst r.
  unfold Translation.main, Translation.fetch_hierarchy, Translation.requests_get,
    Translation.failed_urls_append.
  fold url. run. split.
  - intros H. apply Z.eqb_neq in H. rewrite H. simpl. repeat split.
  - intros H Hbt. rewrite H. simpl. rewrite Hbt. repeat split.
Qed.

Lemma translation_main_needs_its_root_witness :
  fst (Translation.main
         (Translation.mkServer (fun _ => (200, Scenario.no_concept))
                               (fun _ => (500, Translation.mkHierarchy None)) Scenario.engine)
         (-1) 3 Translation.initial) = Raise TypeError
  /\ fst (Translation.main
            (Translation.mkServer (fun _ => (200, Scenario.no_concept))
                                  (fun _ => (200, Translation.mkHierarchy None)) Scenario.engine)
            (-1) 3 Translation.initial) = Raise KeyError.
Proof.
  split.
  - apply (proj1 (translation_main_needs_its_root
                    (Translation.mkServer (fun _ => (200, Scenario.no_concept))
                       (fun _ => (500, Translation.mkHierarchy None)) Scenario.engine)
                    (-1) 3 Translation.initial)).
    simpl. lia.
  - apply (proj2 (translation_main_needs_its_root
                    (Translation.mkServer (fun _ => (200, Scenario.no_concept))
                       (fun _ => (200, Translation.mkHierarchy None)) Scenario.engine)
                    (-1) 3 Translation.initial)); reflexivity.
Defined.

(** ** The node that reaches the cap *)

(** X20: in the translation crawl, the narrower child whose emission brings
    the counter up to the cap is still emitted, provided its page holds no
    double quote and no control character (so that the query of line 49 is
    the intended one), and then the loop over its siblings is left
    ([break]): the child is not expanded, whatever its [hasChildren] flag,
    so the only request of the step is its [data] request. *)
Theorem translation_cap_stops_expansion :
  forall (srv : Translation.Server) (MAX_COUNT : Z)
         (expand : option Translation.Hierarchy -> nat -> option string
                   -> option string -> M Translation.State unit)
         (depth : nat) (c : Translation.Child) (lbl : string)
         (st : Translation.State),
    let page := Translation.get_page_number_from_uri (Translation.uri c) in
    Translation.label_of c = Some lbl ->
    Translation.plain_page page = true ->
    MAX_COUNT <> -1 ->
    MAX_COUNT <= Translation.count st + 1 ->
    exists t st',
      Translation.visit_child srv MAX_COUNT expand depth c st = (Ok Break, st')
      /\ Translation.results st'
         = (Translation.results st ++ [Translation.mkEntry lbl t page])%list
      /\ Translation.http_log st'
         = (Translation.http_log st ++ [Translation.data_url page])%list
      /\ Translation.count st' = Translation.count st + 1.
Proof.
  intros srv MAX_COUNT expand depth c lbl st page Hlbl Hplain Hcap Hle.
  unfold Translation.visit_child, Translation.entry_label. rewrite Hlbl.
  fold page.
  destruct (emit_spec srv lbl page st Hplain) as (t & st1 & He & Hr & Hl & Hc).
  rewrite (@bind_ok _ _ _ (ret lbl) _ st lbl st eq_refl).
  rewrite (bind_ok _ _ _ He).
  unfold Translation.count_visit, Translation.counter_increment. run.
  apply Z.eqb_neq in Hcap. rewrite Hcap. simpl.
  assert (Hb : (MAX_COUNT <=? Translation.count st1 + 1) = true)
    by (apply Z.leb_le; lia).
  rewrite Hb. exists t. eexists. split; [reflexivity|]. simpl.
  repeat split; try assumption. lia.
Qed.

Lemma translation_cap_stops_expansion_witness :
  exists t st',
    Translation.visit_child (Scenario.translation 200) 1
      (Translation.process_hierarchy (Scenario.translation 200) 1 3) 0
      (Scenario.child "2" "Aerophones" true) Translation.initial
    = (Ok Break, st')
    /\ Translation.results st'
       = (Translation.results Translation.initial
            ++ [Translation.mkEntry "Aerophones" t "2"])%list
    /\ Translation.http_log st'
       = (Translation.http_log Translation.initial ++ [Translation.data_url "2"])%list
    /\ Translation.count st' = Translation.count Translation.initial + 1.
Proof.
  apply (@translation_cap_stops_expansion (Scenario.translation 200) 1
           (Translation.process_hierarchy (Scenario.translation 200) 1 3) 0%nat
           (Scenario.child "2" "Aerophones" true) "Aerophones" Translation.initial).
  - reflexivity.
  - reflexivity.
  - lia.
  - simpl. lia.
Defined.

(** ** A descriptor that is its own child *)

Section SelfLoop.
Import Translation.
Variable srv : Server.
Variable MAX_COUNT : Z.

Lemma self_loop (h : Hierarchy) (bt : dict string Broader) (u lbl : string)
      (b : Broader) :
  hierarchy_doc srv (hierarchy_url (get_page_number_from_uri u)) = (200, h) ->
  broaderTransitive h = Some bt ->
  dict_get String.eqb bt u = Some b ->
  narrower b = None ->
  uri (self b) = u ->
  hasChildren (self b) = true ->
  label_of (self b) = Some lbl ->
  plain_page (get_page_number_from_uri u) = true ->
  forall fuel depth page st,
    cap_reached MAX_COUNT st = false ->
    fst (process_hierarchy srv MAX_COUNT fuel (Some h) depth (Some u) page st)
    = OutOfFuel.
Proof.
  intros Hdoc Hbt Hu Hn Huri Hc Hlbl Hplain.
  induction fuel as [|fuel IH]; intros depth page st Hcap.
  - reflexivity.
  - set (p := get_page_number_from_uri u) in *.
    destruct (emit_spec srv lbl p st Hplain) as (t & st1 & He & Hr1 & _ & Hc1).
    set (st2 := mkState (count st1) (failed_urls st1) (results st1)
                        (http_log st1 ++ [hierarchy_url p])).
    assert (Hf : fetch_hierarchy srv p st1 = (Ok (Some h), st2)).
    { unfold fetch_hierarchy, requests_get. run. now rewrite Hdoc. }
    assert (Hcap2 : cap_reached MAX_COUNT st2 = false).
    { unfold cap_reached in *. simpl. now rewrite Hc1. }
    specialize (IH (S depth) (Some p) st2 Hcap2).
    simpl. unfold bind at 1. unfold get. rewrite Hcap, Hbt.
    simpl. rewrite Hu, Hn.
    unfold visit_self, entry_label. rewrite Hlbl, Hc, Huri. fold p.
    rewrite (@bind_ok _ _ _ (ret lbl) _ st lbl st eq_refl).
    rewrite (bind_ok _ _ _ He), (bind_ok _ _ _ Hf).
    unfold bind at 1.
    destruct (process_hierarchy srv MAX_COUNT fuel (Some h) (S depth) (Some u)
                (Some p) st2) as [[a|e|] st3];
      simpl in IH; try discriminate IH.
    reflexivity.
Qed.

End SelfLoop.

(** X21: the translation crawl can recurse without bound.  Suppose the
    hierarchy document fetched for the page of a URI lists that URI without
    [narrower] but with [hasChildren] true, and the page holds no double
    quote and no control character.  Then [process_hierarchy] for that URI
    emits the descriptor, fetches the same document and calls itself on it
    again, at every depth: whatever number of nested calls is allowed, the
    call exceeds it, without returning and without raising on the way.
    Under CPython, whose recursion limit is such a number, the call
    therefore ends with [RecursionError], whatever the limit is set to.  The
    cap does not stop this, because this branch never counts. *)
Theorem translation_self_describing_node_never_ends :
  forall (srv : Translation.Server) (MAX_COUNT : Z)
         (h : Translation.Hierarchy) (bt : dict string Translation.Broader)
         (u lbl : string) (b : Translation.Broader)
         (fuel depth : nat) (page : option string) (st : Translation.State),
    Translation.hierarchy_doc srv
      (Translation.hierarchy_url (Translation.get_page_number_from_uri u)) = (200, h) ->
    Translation.broaderTransitive h = Some bt ->
    dict_get String.eqb bt u = Some b ->
    Translation.narrower b = None ->
    Translation.uri (Translation.self b) = u ->
    Translation.hasChildren (Translation.self b) = true ->
    Translation.label_of (Translation.self b) = Some lbl ->
    Translation.plain_page (Translation.get_page_number_from_uri u) = true ->
    Translation.cap_reached MAX_COUNT st = false ->
    fst (Translation.process_hierarchy srv MAX_COUNT fuel (Some h) depth (Some u)
           page st) = OutOfFuel
    /\ fst (under_recursion_limit fuel
              (fun n => Translation.process_hierarchy srv MAX_COUNT n (Some h) depth
                          (Some u) page) st)
       = Raise RecursionError.
Proof.
  intros srv MAX_COUNT h bt u lbl b fuel depth page st
         Hdoc Hbt Hu Hn Huri Hc Hlbl Hplain Hcap.
  pose proof (@self_loop srv MAX_COUNT h bt u lbl b Hdoc Hbt Hu Hn Huri Hc Hlbl
                Hplain fuel depth page st Hcap) as Hloop.
  split; [exact Hloop|].
  unfold under_recursion_limit.
  destruct (Translation.process_hierarchy srv MAX_COUNT fuel (Some h) depth
              (Some u) page st) as [[a|e|] st'];
    simpl in Hloop; try discriminate Hloop.
  reflexivity.
Qed.

(** A service whose hierarchy document for page 9 lists the concept of
    page 9 itself, without [narrower] and with [hasChildren] true. *)
Definition loop_doc : Translation.Hierarchy :=
  Translation.mkHierarchy
    (Some [(Scenario.kw "9",
            Translation.mkBroader (Scenario.child "9" "Loop" true) None)]).

Definition loop_service : Translation.Server :=
  Translation.mkServer (fun _ => (200, Scenario.no_concept))
                       (fun _ => (200, loop_doc)) Scenario.engine.

Lemma translation_self_describing_node_never_ends_witness :
  fst (Translation.process_hierarchy loop_service 2 7 (Some loop_doc) 0
         (Some (Scenario.kw "9")) None Translation.initial) = OutOfFuel
  /\ fst (under_recursion_limit 7
            (fun n => Translation.process_hierarchy loop_service 2 n (Some loop_doc)
                        0 (Some (Scenario.kw "9")) None) Translation.initial)
     = Raise RecursionError.
Proof.
  apply (@translation_self_describing_node_never_ends loop_service 2 loop_doc
           [(Scenario.kw "9",
             Translation.mkBroader (Scenario.child "9" "Loop" true) None)]
           (Scenario.kw "9") "Loop"
           (Translation.mkBroader (Scenario.child "9" "Loop" true) None)
           7%nat 0%nat None Translation.initial);
    reflexivity.
Defined.
